(** * VideoFrameExtractor: frame sampling and export pipeline

    A shallow embedding of [src/components/VideoRecorder.tsx].  The React
    component is modelled as a state machine: the hooks ([useState]) and
    refs ([useRef]) are fields of one [State] record, every handler is a
    function on that record, and the browser (the interval timers, the
    video element, the clock) is the environment that feeds events.

    - a closure created by a render captures the hook values of that
      render; the only closure that outlives its render is the interval
      callback of [extractFrames], so the model stores, with every active
      interval, the [eyeSide] its callback captured;
    - refs are read and written in place, so they are plain fields;
    - what a handler asks of the outside world ([alert], a link click,
      [saveAs], [video.play]) is returned as a list of [Effect]s. *)

From Stdlib Require Import ZArith Lia Bool List Ascii String.
From stdpp Require Import base tactics option list sorting strings pretty gmap fin_maps.

Local Open Scope string_scope.
Local Open Scope list_scope.

Set Warnings "-register-all".

(** ** Data model *)

Inductive EyeSide := OD | OE.

#[global] Instance EyeSide_eq_dec : EqDecision EyeSide.
Proof. solve_decision. Defined.

(** The literal the template string and the manifest print for a tag. *)
Definition eyeSideCode (e : EyeSide) : string :=
  match e with OD => "OD" | OE => "OE" end.

(** [interface Frame].  [takenAt] is the time value of the [Date]
    (milliseconds since the epoch); [id] is a JS number that only ever
    holds a counter value, modelled as a natural number. *)
Record Frame := mkFrame {
  id : nat;
  uri : string;
  fileName : string;
  takenAt : Z;
  selected : bool;
  eyeSide : EyeSide
}.

(** The file chosen in the [<input type="file">]. *)
Inductive File := mkFile (name : string).

(** What the interval callback reads from the environment when it runs:
    the playback status and native size of the video, the PNG data URL
    the canvas yields after [drawImage], and the clock ([new Date()]). *)
Record VideoSample := mkSample {
  paused : bool;
  ended : bool;
  videoWidth : nat;
  videoHeight : nat;
  dataURL : string;
  now : Z
}.

(** Component state.  Refs first, then hooks, then the parts of the DOM
    and of the browser the handlers write to. *)
Record State := mkState {
  videoRef : bool;                  (* videoRef.current is an element *)
  canvasRef : bool;                 (* canvasRef.current is an element *)
  context2d : bool;                 (* canvas.getContext("2d") is not null *)
  frameIntervalRef : option nat;    (* useRef<number | null>(null) *)
  globalFrameId : nat;              (* useRef<number>(0) *)
  frames : list Frame;              (* useState<Frame[]>([]) *)
  isExtracting : bool;              (* useState(false) *)
  videoFile : option File;          (* useState<File | null>(null) *)
  eyeSideHook : EyeSide;            (* useState<"OD" | "OE">("OD") *)
  videoSrc : option File;           (* video.src, an object URL of the file *)
  videoMuted : bool;                (* video.muted *)
  canvasSize : nat * nat;           (* canvas.width, canvas.height *)
  timers : gmap nat EyeSide;        (* active intervals and what they captured *)
  nextTimer : nat                   (* next handle window.setInterval returns *)
}.

(** *** Field updates *)

Definition set_frameIntervalRef (v : option nat) (s : State) : State :=
  mkState (videoRef s) (canvasRef s) (context2d s) v (globalFrameId s)
    (frames s) (isExtracting s) (videoFile s) (eyeSideHook s) (videoSrc s)
    (videoMuted s) (canvasSize s) (timers s) (nextTimer s).

Definition set_globalFrameId (v : nat) (s : State) : State :=
  mkState (videoRef s) (canvasRef s) (context2d s) (frameIntervalRef s) v
    (frames s) (isExtracting s) (videoFile s) (eyeSideHook s) (videoSrc s)
    (videoMuted s) (canvasSize s) (timers s) (nextTimer s).

Definition setFrames (v : list Frame -> list Frame) (s : State) : State :=
  mkState (videoRef s) (canvasRef s) (context2d s) (frameIntervalRef s)
    (globalFrameId s) (v (frames s)) (isExtracting s) (videoFile s)
    (eyeSideHook s) (videoSrc s) (videoMuted s) (canvasSize s) (timers s)
    (nextTimer s).

Definition setIsExtracting (v : bool) (s : State) : State :=
  mkState (videoRef s) (canvasRef s) (context2d s) (frameIntervalRef s)
    (globalFrameId s) (frames s) v (videoFile s) (eyeSideHook s) (videoSrc s)
    (videoMuted s) (canvasSize s) (timers s) (nextTimer s).

Definition setVideoFile (v : option File) (s : State) : State :=
  mkState (videoRef s) (canvasRef s) (context2d s) (frameIntervalRef s)
    (globalFrameId s) (frames s) (isExtracting s) v (eyeSideHook s)
    (videoSrc s) (videoMuted s) (canvasSize s) (timers s) (nextTimer s).

Definition setEyeSide (v : EyeSide -> EyeSide) (s : State) : State :=
  mkState (videoRef s) (canvasRef s) (context2d s) (frameIntervalRef s)
    (globalFrameId s) (frames s) (isExtracting s) (videoFile s)
    (v (eyeSideHook s)) (videoSrc s) (videoMuted s) (canvasSize s) (timers s)
    (nextTimer s).

Definition set_videoSrc (v : option File) (s : State) : State :=
  mkState (videoRef s) (canvasRef s) (context2d s) (frameIntervalRef s)
    (globalFrameId s) (frames s) (isExtracting s) (videoFile s)
    (eyeSideHook s) v (videoMuted s) (canvasSize s) (timers s) (nextTimer s).

Definition set_videoMuted (v : bool) (s : State) : State :=
  mkState (videoRef s) (canvasRef s) (context2d s) (frameIntervalRef s)
    (globalFrameId s) (frames s) (isExtracting s) (videoFile s)
    (eyeSideHook s) (videoSrc s) v (canvasSize s) (timers s) (nextTimer s).

Definition set_canvasSize (v : nat * nat) (s : State) : State :=
  mkState (videoRef s) (canvasRef s) (context2d s) (frameIntervalRef s)
    (globalFrameId s) (frames s) (isExtracting s) (videoFile s)
    (eyeSideHook s) (videoSrc s) (videoMuted s) v (timers s) (nextTimer s).

(** *** The browser's interval timers *)

(** [window.setInterval(cb, 500)]: registers the callback (here, what it
    captured) under a fresh handle and returns the handle. *)
Definition setInterval (captured : EyeSide) (s : State) : nat * State :=
  (nextTimer s,
   mkState (videoRef s) (canvasRef s) (context2d s) (frameIntervalRef s)
     (globalFrameId s) (frames s) (isExtracting s) (videoFile s)
     (eyeSideHook s) (videoSrc s) (videoMuted s) (canvasSize s)
     (<[nextTimer s := captured]> (timers s)) (S (nextTimer s))).

(** [window.clearInterval(t)]. *)
Definition clearInterval (t : nat) (s : State) : State :=
  mkState (videoRef s) (canvasRef s) (context2d s) (frameIntervalRef s)
    (globalFrameId s) (frames s) (isExtracting s) (videoFile s)
    (eyeSideHook s) (videoSrc s) (videoMuted s) (canvasSize s)
    (delete t (timers s)) (nextTimer s).

(** ** The archive library (JSZip) and what a handler can ask for *)

(** An entry of [zip.files]: a folder, or a file with the data it was
    given and whether that data is base64 text. *)
Inductive ZipObject :=
| ZDir
| ZFile (data : string) (base64 : bool).

#[global] Instance ZipObject_eq_dec : EqDecision ZipObject.
Proof. solve_decision. Defined.

Inductive Effect :=
| Alert (message : string)
| VideoPlay
| LinkClick (href download : string)
| SaveAs (archive : gmap string ZipObject) (name : string).

(** ** Handlers *)

(** A JS number is truthy unless it is 0. *)
Definition truthy (n : nat) : bool := negb (Nat.eqb n 0).

(** [stopExtracting] (lines 67-73). *)
Definition stopExtracting (s : State) : State :=
  let s :=
    match frameIntervalRef s with
    | Some t =>
        if truthy t then set_frameIntervalRef None (clearInterval t s) else s
    | None => s
    end in
  setIsExtracting false s.

(** The template string of line 49. *)
Definition frameFileName (n : nat) (e : EyeSide) : string :=
  "frame_" +:+ pretty n +:+ "_" +:+ eyeSideCode e +:+ ".png".

(** The callback passed to [setInterval] (lines 38-62).  [eye] is the
    value of the [eyeSide] hook in the render whose [extractFrames] made
    this callback; [globalFrameId] and [frameIntervalRef] are refs and
    are read when the callback runs. *)
Definition intervalCallback (eye : EyeSide) (v : VideoSample) (s : State)
  : State :=
  if paused v || ended v then stopExtracting s
  else
    let s := set_canvasSize (videoWidth v, videoHeight v) s in
    let imageSrc := dataURL v in
    let fileName := frameFileName (globalFrameId s) eye in
    let newFrame :=
      {| id := globalFrameId s; uri := imageSrc; fileName := fileName;
         takenAt := now v; selected := false; eyeSide := eye |} in
    let s := setFrames (fun prev => prev ++ [newFrame]) s in
    set_globalFrameId (globalFrameId s + 1) s.

(** [extractFrames] (lines 27-65). *)
Definition extractFrames (s : State) : State * list Effect :=
  if negb (videoRef s) || negb (canvasRef s) then (s, [])
  else if negb (context2d s) then (s, [])
  else
    let s := setIsExtracting true s in
    let s := set_videoMuted true s in
    let '(t, s) := setInterval (eyeSideHook s) s in
    let s := set_frameIntervalRef (Some t) s in
    (s, [VideoPlay]).

(** The function mapped over the store at line 78. *)
Definition toggleFrame (i : nat) (frame : Frame) : Frame :=
  if Nat.eqb (id frame) i
  then {| id := id frame; uri := uri frame; fileName := fileName frame;
          takenAt := takenAt frame; selected := negb (selected frame);
          eyeSide := eyeSide frame |}
  else frame.

(** [toggleFrameSelection] (lines 75-81). *)
Definition toggleFrameSelection (i : nat) (s : State) : State :=
  setFrames (fun prevFrames => List.map (toggleFrame i) prevFrames) s.

(** [handleVideoUpload] (lines 139-150); [file] is [event.target.files?.[0]]. *)
Definition handleVideoUpload (file : option File) (s : State) : State :=
  match file with
  | Some f =>
      let s := setVideoFile (Some f) s in
      let s := setFrames (fun _ => []) s in
      if videoRef s then set_videoSrc (Some f) s else s
  | None => s
  end.

(** The updater of the eye-side button (line 205). *)
Definition toggleEyeSide (prev : EyeSide) : EyeSide :=
  match prev with OD => OE | OE => OD end.

(** ** Strings, dates and JSON as the export code uses them *)

Definition newline : string := String "010"%char "".
Definition dquote : ascii := "034"%char.
Definition backslash : ascii := "092"%char.

(** [s.split(sep)] for a one-character separator. *)
Fixpoint split (sep : ascii) (s : string) : list string :=
  match s with
  | EmptyString => [EmptyString]
  | String c rest =>
      if Ascii.eqb c sep then EmptyString :: split sep rest
      else match split sep rest with
           | piece :: pieces => String c piece :: pieces
           | [] => [String c EmptyString]
           end
  end.

Definition digitChar (d : Z) : ascii :=
  ascii_of_nat (48 + Z.to_nat (d mod 10)).

(** The last [k] decimal digits of [n], most significant first: a
    non-negative number printed with [padStart(k, "0")]. *)
Fixpoint padDigits (k : nat) (n : Z) : string :=
  match k with
  | O => ""
  | S k' => padDigits k' (n / 10) +:+ String (digitChar n) ""
  end.

Definition msPerDay : Z := 86400000.

(** Year, month and day (UTC, proleptic Gregorian) of a day number
    counted from 1970-01-01. *)
Definition civilFromDays (days : Z) : Z * Z * Z :=
  let z := (days + 719468)%Z in
  let era := (z / 146097)%Z in
  let doe := (z - era * 146097)%Z in
  let yoe := ((doe - doe / 1460 + doe / 36524 - doe / 146096) / 365)%Z in
  let doy := (doe - (365 * yoe + yoe / 4 - yoe / 100))%Z in
  let mp := ((5 * doy + 2) / 153)%Z in
  let d := (doy - (153 * mp + 2) / 5 + 1)%Z in
  let m := if (mp <? 10)%Z then (mp + 3)%Z else (mp - 9)%Z in
  let y := (yoe + era * 400 + (if (m <=? 2)%Z then 1 else 0))%Z in
  (y, m, d).

Definition yearString (y : Z) : string :=
  if ((0 <=? y) && (y <=? 9999))%Z then padDigits 4 y
  else (if (y <? 0)%Z then "-" else "+") +:+ padDigits 6 (Z.abs y).

(** [Date.prototype.toISOString] on the time value [t] of a valid date
    (a [Date] only holds time values within 8.64e15 ms of the epoch):
    [YYYY-MM-DDTHH:mm:ss.sssZ], with a signed six-digit year outside
    0..9999. *)
Definition toISOString (t : Z) : string :=
  let '(y, m, d) := civilFromDays (t / msPerDay) in
  let ms := (t mod msPerDay)%Z in
  yearString y +:+ "-" +:+ padDigits 2 m +:+ "-" +:+ padDigits 2 d +:+ "T"
  +:+ padDigits 2 (ms / 3600000) +:+ ":" +:+ padDigits 2 (ms / 60000 mod 60)
  +:+ ":" +:+ padDigits 2 (ms / 1000 mod 60) +:+ "."
  +:+ padDigits 3 (ms mod 1000) +:+ "Z".

(** The values [JSON.stringify] is given here: integers, strings, arrays
    and plain objects (members in insertion order). *)
Inductive JSON :=
| JNum (n : Z)
| JStr (s : string)
| JArr (items : list JSON)
| JObj (members : list (string * JSON)).

Definition hexDigit (n : nat) : ascii :=
  nth n (list_ascii_of_string "0123456789abcdef") "0"%char.

(** [QuoteJSONString] on one code unit: quote, backslash and the control
    characters are escaped, everything else is copied. *)
Definition escapeChar (c : ascii) : string :=
  let n := nat_of_ascii c in
  if Nat.eqb n 34 then String backslash (String dquote "")
  else if Nat.eqb n 92 then String backslash (String backslash "")
  else if Nat.eqb n 8 then String backslash "b"
  else if Nat.eqb n 9 then String backslash "t"
  else if Nat.eqb n 10 then String backslash "n"
  else if Nat.eqb n 12 then String backslash "f"
  else if Nat.eqb n 13 then String backslash "r"
  else if Nat.ltb n 32 then
    String backslash "u00" +:+ String (hexDigit (n / 16)) (String (hexDigit (n mod 16)) "")
  else String c "".

Fixpoint escapeString (s : string) : string :=
  match s with
  | EmptyString => ""
  | String c rest => escapeChar c +:+ escapeString rest
  end.

Definition quoteJSON (s : string) : string :=
  String dquote (escapeString s) +:+ String dquote "".

(** [SerializeJSONProperty] with a non-empty [gap]; [indent] is the
    current indentation. *)
Fixpoint serializeJSON (gap indent : string) (v : JSON) : string :=
  match v with
  | JNum n => pretty n
  | JStr s => quoteJSON s
  | JArr [] => "[]"
  | JArr items =>
      let inner := indent +:+ gap in
      "[" +:+ newline +:+ inner
      +:+ String.concat ("," +:+ newline +:+ inner)
            (List.map (serializeJSON gap inner) items)
      +:+ newline +:+ indent +:+ "]"
  | JObj [] => "{}"
  | JObj members =>
      let inner := indent +:+ gap in
      "{" +:+ newline +:+ inner
      +:+ String.concat ("," +:+ newline +:+ inner)
            (List.map
               (fun m => quoteJSON (fst m) +:+ ": " +:+ serializeJSON gap inner (snd m))
               members)
      +:+ newline +:+ indent +:+ "}"
  end.

(** [JSON.stringify(value, null, 2)]. *)
Definition JSON_stringify (v : JSON) : string := serializeJSON "  " "" v.

(** *** JSZip

    All handles made from one [new JSZip()] share its [files] object, so
    the model threads that one map; a handle is the [root] prefix it
    adds to names.  The names given here ([OD], [OE], [frames_info.json]
    and frame file names) have no [/] of their own, so the only parent
    folder a file can have is the root of its handle. *)

(** [folderAdd]: the entry for a folder is created unless one is there. *)
Definition folderAdd (path : string) (files : gmap string ZipObject)
  : gmap string ZipObject :=
  match files !! path with
  | Some _ => files
  | None => <[path := ZDir]> files
  end.

(** [handle.folder(name)]: the new handle and the shared files. *)
Definition zipFolder (root name : string) (files : gmap string ZipObject)
  : string * gmap string ZipObject :=
  let path := root +:+ name +:+ "/" in
  (path, folderAdd path files).

(** [handle.file(name, data, {base64})]: the parent folder is made if
    missing, then the entry is written over whatever had that name.
    Missing or empty data gives an empty, non-base64 file. *)
Definition zipFile (root name : string) (data : option string) (b64 : bool)
    (files : gmap string ZipObject) : gmap string ZipObject :=
  let files := if String.eqb root "" then files else folderAdd root files in
  let object :=
    match data with
    | Some d => if String.eqb d "" then ZFile "" false else ZFile d b64
    | None => ZFile "" false
    end in
  <[root +:+ name := object]> files.

(** The object built for one frame at lines 103-108. *)
Definition frameInfo (frame : Frame) : JSON :=
  JObj [("id", JNum (Z.of_nat (id frame)));
        ("fileName", JStr (fileName frame));
        ("eyeSide", JStr (eyeSideCode (eyeSide frame)));
        ("takenAt", JStr (toISOString (takenAt frame)))].

(** The body of the [forEach] at lines 94-101. *)
Definition addFrameToZip (odFolder oeFolder : string)
    (zip : gmap string ZipObject) (frame : Frame) : gmap string ZipObject :=
  let base64Data := split ","%char (uri frame) !! 1%nat in
  match eyeSide frame with
  | OD => zipFile odFolder (fileName frame) base64Data true zip
  | OE => zipFile oeFolder (fileName frame) base64Data true zip
  end.

(** [downloadSelectedImages] (lines 83-113).  No control of the rendered
    page calls it; it reads the hooks and changes none. *)
Definition downloadSelectedImages (s : State) : list Effect :=
  let selectedFrames := List.filter selected (frames s) in
  if Nat.eqb (length selectedFrames) 0 then
    [Alert "Nenhuma imagem foi selecionada, todas serão baixadas."]
  else
    let zip : gmap string ZipObject := ∅ in
    let '(odFolder, zip) := zipFolder "" "OD" zip in
    let '(oeFolder, zip) := zipFolder "" "OE" zip in
    let zip := fold_left (addFrameToZip odFolder oeFolder) selectedFrames zip in
    let framesInfo := List.map frameInfo selectedFrames in
    let zip :=
      zipFile "" "frames_info.json" (Some (JSON_stringify (JArr framesInfo)))
        false zip in
    [SaveAs zip "frames_selecionados.zip"].

(** [downloadAllImages] (lines 115-137). *)
Definition downloadAllImages (s : State) : list Effect :=
  let framesToDownload :=
    if Nat.ltb 0 (length (List.filter selected (frames s)))
    then List.filter selected (frames s)
    else frames s in
  if Nat.eqb (length framesToDownload) 0 then
    [Alert "Nenhuma imagem disponível para download."]
  else
    Alert (pretty (length framesToDownload)
           +:+ " imagens serão baixadas. Confirme os downloads no seu navegador.")
    :: List.map (fun frame => LinkClick (uri frame) (fileName frame))
         framesToDownload.

(** ** The rendered page as a state machine *)

(** What can happen to the mounted component: the file input changes,
    one of the controls is clicked, or an interval fires. *)
Inductive Event :=
| Upload (file : option File)
| ClickStart
| ClickStop
| ClickDownload
| ClickEyeSide
| ClickFrame (i : nat)
| Tick (t : nat) (v : VideoSample).

Definition isSome {A} (o : option A) : bool :=
  match o with Some _ => true | None => false end.

(** One event.  The four buttons are rendered only when [videoFile] is
    set, and a [disabled] button does not call its handler (lines
    172-211); a thumbnail exists for each stored frame (lines 225-242);
    an interval fires only while it is active. *)
Definition step (s : State) (e : Event) : State * list Effect :=
  match e with
  | Upload file => (handleVideoUpload file s, [])
  | ClickStart =>
      if isSome (videoFile s) && negb (isExtracting s)
      then extractFrames s else (s, [])
  | ClickStop =>
      if isSome (videoFile s) && isExtracting s
      then (stopExtracting s, []) else (s, [])
  | ClickDownload =>
      if isSome (videoFile s) && negb (Nat.eqb (length (frames s)) 0)
      then (s, downloadAllImages s) else (s, [])
  | ClickEyeSide =>
      if isSome (videoFile s) then (setEyeSide toggleEyeSide s, [])
      else (s, [])
  | ClickFrame i =>
      if existsb (fun frame => Nat.eqb (id frame) i) (frames s)
      then (toggleFrameSelection i s, []) else (s, [])
  | Tick t v =>
      match timers s !! t with
      | Some eye => (intervalCallback eye v s, [])
      | None => (s, [])
      end
  end.

(** The state after a sequence of events. *)
Definition run (s : State) (es : list Event) : State :=
  fold_left (fun s e => fst (step s e)) es s.

(** The component right after it is mounted (a page load): both elements
    exist and the canvas has a 2d context (the default canvas is 300 by
    150). *)
Definition mounted : State :=
  {| videoRef := true; canvasRef := true; context2d := true;
     frameIntervalRef := None; globalFrameId := 0; frames := [];
     isExtracting := false; videoFile := None; eyeSideHook := OD;
     videoSrc := None; videoMuted := false; canvasSize := (300, 150)%nat;
     timers := ∅; nextTimer := 1 |}.

Definition reachable (s : State) : Prop := exists es, run mounted es = s.

Definition playing (v : VideoSample) : bool := negb (paused v || ended v).

(** ** Notions used in the statements *)

(** The ref holds the handle of the only active interval, and the hook
    [isExtracting] tells whether there is one. *)
Definition timerInv (s : State) : Prop :=
  1 <= nextTimer s /\
  match frameIntervalRef s with
  | None => timers s = ∅ /\ isExtracting s = false
  | Some t =>
      t <> 0 /\ (exists eye, timers s = {[t := eye]}) /\ isExtracting s = true
  end.

(** The frame a capturing tick appends when the counter is [g]. *)
Definition capturedFrame (g : nat) (eye : EyeSide) (v : VideoSample) : Frame :=
  {| id := g; uri := dataURL v; fileName := frameFileName g eye;
     takenAt := now v; selected := false; eyeSide := eye |}.

(** The frames a run of playing ticks appends, counter starting at [g]. *)
Fixpoint capturedFrames (g : nat) (eye : EyeSide) (vs : list VideoSample)
  : list Frame :=
  match vs with
  | [] => []
  | v :: vs' => capturedFrame g eye v :: capturedFrames (g + 1) eye vs'
  end.

(** Whether event [e], arriving in state [s], captures a frame: it is
    the tick of an active interval and the video is playing. *)
Definition captures (s : State) (e : Event) : bool :=
  match e with
  | Tick t v => isSome (timers s !! t) && playing v
  | _ => false
  end.

(** The number of frames captured while [es] is processed from [s]. *)
Fixpoint captureCount (s : State) (es : list Event) : nat :=
  match es with
  | [] => 0
  | e :: es' =>
      (if captures s e then 1 else 0) + captureCount (fst (step s e)) es'
  end.

(** A frame named after its own id and tag, as line 49 names it. *)
Definition wfFrame (f : Frame) : Prop :=
  fileName f = frameFileName (id f) (eyeSide f).

(** Stored frames carry the file name made from their id and tag, their
    ids increase along the store, and all lie below the counter. *)
Definition framesInv (s : State) : Prop :=
  Forall wfFrame (frames s)
  /\ StronglySorted lt (List.map id (frames s))
  /\ Forall (fun f => id f < globalFrameId s) (frames s).

(** The export-set rule of the spec: the selected frames if there are
    any, otherwise the whole store. *)
Definition exportSet (fs : list Frame) : list Frame :=
  match List.filter selected fs with
  | [] => fs
  | sel => sel
  end.

(** Where a frame goes in the archive. *)
Definition zipPath (f : Frame) : string :=
  eyeSideCode (eyeSide f) +:+ "/" +:+ fileName f.

(** The entry written for a frame: the text after the first comma of its
    data URL, as base64. *)
Definition zipEntry (f : Frame) : ZipObject :=
  match split ","%char (uri f) !! 1%nat with
  | Some d => if String.eqb d "" then ZFile "" false else ZFile d true
  | None => ZFile "" false
  end.

(** Whether [c] occurs in [s]. *)
Fixpoint containsChar (c : ascii) (s : string) : bool :=
  match s with
  | EmptyString => false
  | String c' rest => Ascii.eqb c' c || containsChar c rest
  end.

(** The text of the manifest for the frames [fs] (lines 103-109). *)
Definition manifestText (fs : list Frame) : string :=
  JSON_stringify (JArr (List.map frameInfo fs)).

(** A date-time layout: [d] in the template stands for a digit, any
    other character for itself. *)
Definition isDigit (c : ascii) : bool :=
  Nat.leb 48 (nat_of_ascii c) && Nat.leb (nat_of_ascii c) 57.

Fixpoint matchesTemplate (template s : string) : bool :=
  match template, s with
  | EmptyString, EmptyString => true
  | String p template', String c s' =>
      (if Ascii.eqb p "d" then isDigit c else Ascii.eqb p c)
      && matchesTemplate template' s'
  | _, _ => false
  end.

(** The ISO-8601 extended format of ECMAScript, with its two expanded
    year forms. *)
Definition isISO8601 (s : string) : bool :=
  matchesTemplate "dddd-dd-ddTdd:dd:dd.dddZ" s
  || matchesTemplate "+dddddd-dd-ddTdd:dd:dd.dddZ" s
  || matchesTemplate "-dddddd-dd-ddTdd:dd:dd.dddZ" s.

(** ** Reading JSON text

    A reader for the JSON grammar (ECMA-404), written apart from
    [serializeJSON]: it says what it means for a text to be JSON and
    which value the text denotes. *)

(** The four whitespace characters of the JSON grammar: space, line feed,
    carriage return and tab. *)
Definition isWhitespace (c : ascii) : bool :=
  let n := nat_of_ascii c in
  Nat.eqb n 32 || Nat.eqb n 10 || Nat.eqb n 13 || Nat.eqb n 9.

Fixpoint skipWhitespace (s : string) : string :=
  match s with
  | String c rest => if isWhitespace c then skipWhitespace rest else s
  | EmptyString => EmptyString
  end.

(** The value of a hexadecimal digit. *)
Definition hexValue (c : ascii) : option nat :=
  let n := nat_of_ascii c in
  if Nat.leb 48 n && Nat.leb n 57 then Some (n - 48)
  else if Nat.leb 97 n && Nat.leb n 102 then Some (n - 87)
  else if Nat.leb 65 n && Nat.leb n 70 then Some (n - 55)
  else None.

Definition consChar (c : ascii) (r : option (string * string))
  : option (string * string) :=
  match r with
  | Some (body, remaining) => Some (String c body, remaining)
  | None => None
  end.

(** The character of a [\uXXXX] escape; strings hold one-byte characters
    here, so a code above 255 is refused. *)
Definition unicodeEscape (h1 h2 h3 h4 : ascii) : option ascii :=
  match hexValue h1, hexValue h2, hexValue h3, hexValue h4 with
  | Some a, Some b, Some c, Some d =>
      let code := ((a * 16 + b) * 16 + c) * 16 + d in
      if Nat.ltb code 256 then Some (ascii_of_nat code) else None
  | _, _, _, _ => None
  end.

(** The character of a two-character escape. *)
Definition simpleEscape (e : ascii) : option ascii :=
  let n := nat_of_ascii e in
  if Nat.eqb n 34 then Some dquote
  else if Nat.eqb n 92 then Some backslash
  else if Nat.eqb n 47 then Some "/"%char
  else if Nat.eqb n 98 then Some "008"%char
  else if Nat.eqb n 102 then Some "012"%char
  else if Nat.eqb n 110 then Some "010"%char
  else if Nat.eqb n 114 then Some "013"%char
  else if Nat.eqb n 116 then Some "009"%char
  else None.

(** A string literal after its opening quote: the characters up to the
    closing quote, with the escapes decoded; a raw control character is
    refused. Gives the string and the text after the closing quote. *)
Fixpoint parseStringBody (s : string) : option (string * string) :=
  match s with
  | EmptyString => None
  | String c rest =>
      if Ascii.eqb c dquote then Some (EmptyString, rest)
      else if Ascii.eqb c backslash then
        match rest with
        | String e rest1 =>
            if Ascii.eqb e "u" then
              match rest1 with
              | String h1 (String h2 (String h3 (String h4 rest2))) =>
                  match unicodeEscape h1 h2 h3 h4 with
                  | Some d => consChar d (parseStringBody rest2)
                  | None => None
                  end
              | _ => None
              end
            else
              match simpleEscape e with
              | Some d => consChar d (parseStringBody rest1)
              | None => None
              end
        | EmptyString => None
        end
      else if Nat.ltb (nat_of_ascii c) 32 then None
      else consChar c (parseStringBody rest)
  end.

(** Integers, as the JSON grammar writes them: an optional minus, then
    [0] or a digit from 1 to 9 followed by digits. The values here are
    integers, so a fraction or an exponent is refused. *)
Definition digitValue (c : ascii) : N := N.of_nat (nat_of_ascii c - 48).

Fixpoint parseDigits (acc : N) (s : string) : N * string :=
  match s with
  | String c rest =>
      if isDigit c then parseDigits (10 * acc + digitValue c) rest else (acc, s)
  | EmptyString => (acc, EmptyString)
  end.

Definition parseNatural (s : string) : option (N * string) :=
  match s with
  | String c rest =>
      if Ascii.eqb c "0" then Some (0%N, rest)
      else if isDigit c then Some (parseDigits (digitValue c) rest)
      else None
  | EmptyString => None
  end.

Definition endsNumber (s : string) : bool :=
  match s with
  | String c _ =>
      negb (isDigit c || Ascii.eqb c "." || Ascii.eqb c "e" || Ascii.eqb c "E")
  | EmptyString => true
  end.

Definition parseNumber (s : string) : option (Z * string) :=
  let '(negative, digits) :=
    match s with
    | String c rest => if Ascii.eqb c "-" then (true, rest) else (false, s)
    | EmptyString => (false, s)
    end in
  match parseNatural digits with
  | Some (n, rest) =>
      if endsNumber rest
      then Some (if negative then (- Z.of_N n)%Z else Z.of_N n, rest)
      else None
  | None => None
  end.

(** One value, the elements of an array after its opening bracket, and
    the members of an object after its opening brace. [fuel] bounds the
    nesting and the number of elements read. *)
Fixpoint parseValue (fuel : nat) (s : string) : option (JSON * string) :=
  match fuel with
  | O => None
  | S fuel' =>
      match skipWhitespace s with
      | EmptyString => None
      | String c rest =>
          if Ascii.eqb c dquote then
            match parseStringBody rest with
            | Some (str, remaining) => Some (JStr str, remaining)
            | None => None
            end
          else if Ascii.eqb c "[" then
            match skipWhitespace rest with
            | String c' remaining =>
                if Ascii.eqb c' "]" then Some (JArr [], remaining)
                else match parseElements fuel' rest with
                     | Some (items, remaining') => Some (JArr items, remaining')
                     | None => None
                     end
            | EmptyString => None
            end
          else if Ascii.eqb c "{" then
            match skipWhitespace rest with
            | String c' remaining =>
                if Ascii.eqb c' "}" then Some (JObj [], remaining)
                else match parseMembers fuel' rest with
                     | Some (members, remaining') => Some (JObj members, remaining')
                     | None => None
                     end
            | EmptyString => None
            end
          else
            match parseNumber (String c rest) with
            | Some (n, remaining) => Some (JNum n, remaining)
            | None => None
            end
      end
  end
with parseElements (fuel : nat) (s : string) : option (list JSON * string) :=
  match fuel with
  | O => None
  | S fuel' =>
      match parseValue fuel' s with
      | Some (v, rest) =>
          match skipWhitespace rest with
          | String c remaining =>
              if Ascii.eqb c "," then
                match parseElements fuel' remaining with
                | Some (vs, remaining') => Some (v :: vs, remaining')
                | None => None
                end
              else if Ascii.eqb c "]" then Some ([v], remaining)
              else None
          | EmptyString => None
          end
      | None => None
      end
  end
with parseMembers (fuel : nat) (s : string)
  : option (list (string * JSON) * string) :=
  match fuel with
  | O => None
  | S fuel' =>
      match skipWhitespace s with
      | String c rest =>
          if Ascii.eqb c dquote then
            match parseStringBody rest with
            | Some (key, rest1) =>
                match skipWhitespace rest1 with
                | String c1 rest2 =>
                    if Ascii.eqb c1 ":" then
                      match parseValue fuel' rest2 with
                      | Some (v, rest3) =>
                          match skipWhitespace rest3 with
                          | String c3 remaining =>
                              if Ascii.eqb c3 "," then
                                match parseMembers fuel' remaining with
                                | Some (ms, remaining') => Some ((key, v) :: ms, remaining')
                                | None => None
                                end
                              else if Ascii.eqb c3 "}" then Some ([(key, v)], remaining)
                              else None
                          | EmptyString => None
                          end
                      | None => None
                      end
                    else None
                | EmptyString => None
                end
            | None => None
            end
          else None
      | EmptyString => None
      end
  end.

(** [JSON.parse] for texts whose values are integers, strings, arrays and
    objects: the whole text must be one value, with nothing but
    whitespace around it. *)
Definition parseJSON (text : string) : option JSON :=
  match parseValue (String.length text) text with
  | Some (v, rest) =>
      match skipWhitespace rest with
      | EmptyString => Some v
      | String _ _ => None
      end
  | None => None
  end.

(** Bookkeeping for the proof that serialized values read back. *)
Fixpoint allWhitespace (s : string) : bool :=
  match s with
  | EmptyString => true
  | String c rest => isWhitespace c && allWhitespace rest
  end.

(** How much fuel reading a value back takes. *)
Fixpoint cost (v : JSON) : nat :=
  match v with
  | JNum _ => 1
  | JStr _ => 1
  | JArr items => S (list_sum (List.map (fun x => S (cost x)) items))
  | JObj members => S (list_sum (List.map (fun m => S (cost (snd m))) members))
  end.

(** The text of a value reads back as the value, leaving what follows. *)
Definition readsBack (gap : string) (v : JSON) : Prop :=
  forall indent rest fuel,
    allWhitespace indent = true -> cost v <= fuel -> endsNumber rest = true ->
    parseValue fuel (serializeJSON gap indent v +:+ rest) = Some (v, rest).

(** ** States and samples used in examples *)

Definition demoFile : File := mkFile "exam.mp4".

Definition playingSample (data : string) (time : Z) : VideoSample :=
  {| paused := false; ended := false; videoWidth := 640; videoHeight := 480;
     dataURL := "data:image/png;base64," +:+ data; now := time |}.

Definition pausedSample : VideoSample :=
  {| paused := true; ended := false; videoWidth := 640; videoHeight := 480;
     dataURL := "data:image/png;base64,"; now := 1700000002000 |}.

Definition sample0 : VideoSample := playingSample "AAAA" 1700000000123.
Definition sample1 : VideoSample := playingSample "BBBB" 1700000000623.
Definition sample2 : VideoSample := playingSample "CCCC" 1700000001123.

(** A video was chosen and the start button clicked: capture is running. *)
Definition runningState : State := run mounted [Upload (Some demoFile); ClickStart].

(** Two frames captured, none selected. *)
Definition twoFramesState : State :=
  run runningState [Tick 1 sample0; Tick 1 sample1].

(** The eye-side button is clicked between the two captures. *)
Definition toggledBetweenState : State :=
  run runningState [Tick 1 sample0; ClickEyeSide; Tick 1 sample1].

(** Two frames of the right eye, the first one selected. *)
Definition oneSelectedState : State := run twoFramesState [ClickFrame 0].

(** One frame of each eye side, both selected. *)
Definition bothSidesState : State :=
  run mounted [Upload (Some demoFile); ClickStart; Tick 1 sample0; ClickStop;
               ClickEyeSide; ClickStart; Tick 2 sample1;
               ClickFrame 0; ClickFrame 1].

(** Three frames captured, none selected. *)
Definition threeFramesState : State :=
  run runningState [Tick 1 sample0; Tick 1 sample1; Tick 1 sample2].

(** Two playing samples between which the system clock was set back by
    half a second. *)
Definition clockSetBack : list VideoSample :=
  [playingSample "AAAA" 1700000000623; playingSample "BBBB" 1700000000123].

(** ** Notions used for the rest of the component *)

(** What a sequence of events asks of the outside world, in order. *)
Fixpoint runEffects (s : State) (es : list Event) : list Effect :=
  match es with
  | [] => []
  | e :: es' => snd (step s e) ++ runEffects (fst (step s e)) es'
  end.

(** The file input delivers a file. *)
Definition choosesFile (e : Event) : bool :=
  match e with
  | Upload (Some _) => true
  | _ => false
  end.

Definition isSaveAs (eff : Effect) : bool :=
  match eff with
  | SaveAs _ _ => true
  | _ => false
  end.

Definition isAlert (message : string) (eff : Effect) : bool :=
  match eff with
  | Alert m => String.eqb m message
  | _ => false
  end.

(** The two notices of [downloadAllImages] (lines 121 and 126). *)
Definition noImageMessage : string :=
  "Nenhuma imagem disponível para download.".

Definition countMessage (n : nat) : string :=
  pretty n +:+ " imagens serão baixadas. Confirme os downloads no seu navegador.".

(** The link clicks of lines 129-136, one per frame. *)
Definition linkClicks (fs : list Frame) : list Effect :=
  List.map (fun frame => LinkClick (uri frame) (fileName frame)) fs.

(** A frame with its selection mark inverted (line 78). *)
Definition flipSelected (f : Frame) : Frame :=
  {| id := id f; uri := uri f; fileName := fileName f; takenAt := takenAt f;
     selected := negb (selected f); eyeSide := eyeSide f |}.

(** The elements stay mounted, the video element shows the chosen file,
    and capture has only ever run on a chosen, muted video. *)
Definition pageInv (s : State) : Prop :=
  videoRef s = true /\ canvasRef s = true /\ context2d s = true
  /\ videoSrc s = videoFile s
  /\ (isExtracting s = true \/ 0 < globalFrameId s ->
      videoFile s <> None /\ videoMuted s = true).

(** Capture was stopped, the eye-side button clicked, capture restarted. *)
Definition restartedState : State :=
  run twoFramesState [ClickStop; ClickEyeSide; ClickStart].

(** * Properties *)

(** ** Reading a state after an update *)

Lemma run_nil s : run s [] = s.
Proof. reflexivity. Qed.

Lemma run_cons s e es : run s (e :: es) = run (fst (step s e)) es.
Proof. reflexivity. Qed.

Lemma run_app s es1 es2 : run s (es1 ++ es2) = run (run s es1) es2.
Proof. unfold run. apply fold_left_app. Qed.

Lemma run_snoc s es e : run s (es ++ [e]) = fst (step (run s es) e).
Proof. rewrite run_app. reflexivity. Qed.

Lemma reachable_mounted : reachable mounted.
Proof. exists []. reflexivity. Qed.

Lemma reachable_step s e : reachable s -> reachable (fst (step s e)).
Proof. intros [es <-]. exists (es ++ [e]). apply run_snoc. Qed.

Lemma reachable_run s es : reachable s -> reachable (run s es).
Proof.
  revert s. induction es as [|e es IH]; intros s Hs; [exact Hs|].
  rewrite run_cons. apply IH, reachable_step, Hs.
Qed.

(** Induction over the events that led to a reachable state. *)
Lemma reachable_ind (P : State -> Prop) :
  P mounted ->
  (forall s e, reachable s -> P s -> P (fst (step s e))) ->
  forall s, reachable s -> P s.
Proof.
  intros H0 Hstep s [es <-].
  induction es as [|e es IH] using rev_ind; [exact H0|].
  rewrite run_snoc. apply Hstep; [eexists; reflexivity | exact IH].
Qed.

(** ** The timer invariant *)

Lemma stopExtracting_timerInv s : timerInv s -> timerInv (stopExtracting s).
Proof.
  intros [Hn H]. unfold stopExtracting, timerInv.
  destruct (frameIntervalRef s) as [t|] eqn:Hr; simpl.
  - destruct H as (Ht & [eye He] & _).
    unfold truthy. destruct (Nat.eqb_spec t 0) as [->|_]; [done|]. simpl.
    rewrite He, delete_singleton_eq. auto.
  - rewrite Hr. destruct H as [H _]. auto.
Qed.

Lemma stopExtracting_stops s :
  timerInv s ->
  timers (stopExtracting s) = ∅ /\ isExtracting (stopExtracting s) = false
  /\ frameIntervalRef (stopExtracting s) = None.
Proof.
  intros H. pose proof (stopExtracting_timerInv s H) as [_ H'].
  assert (isExtracting (stopExtracting s) = false) as Hx by reflexivity.
  destruct (frameIntervalRef (stopExtracting s)); [|tauto].
  destruct H' as (_ & _ & H'). congruence.
Qed.

Lemma extractFrames_timerInv s :
  timerInv s -> isExtracting s = false -> timerInv (fst (extractFrames s)).
Proof.
  intros [Hn H] Hx. unfold extractFrames.
  destruct (negb (videoRef s) || negb (canvasRef s)); [by split|].
  destruct (negb (context2d s)); [by split|].
  simpl. split; simpl; [lia|].
  destruct (frameIntervalRef s); [destruct H as (_ & _ & H); congruence|].
  destruct H as [-> _]. rewrite insert_empty.
  split; [lia|]. split; [eauto|done].
Qed.

Lemma intervalCallback_timerInv eye v s :
  timerInv s -> timerInv (intervalCallback eye v s).
Proof.
  unfold intervalCallback. destruct (paused v || ended v).
  - apply stopExtracting_timerInv.
  - intros H. exact H.
Qed.

Lemma step_timerInv s e : timerInv s -> timerInv (fst (step s e)).
Proof.
  intros H. destruct e as [file| | | | |i|t v]; simpl.
  - destruct file as [f|]; [|exact H]. simpl.
    destruct (videoRef s); exact H.
  - destruct (isSome (videoFile s) && negb (isExtracting s)) eqn:Hg; [|exact H].
    apply extractFrames_timerInv; [exact H|].
    apply andb_true_iff in Hg as [_ Hg]. by apply negb_true_iff in Hg.
  - destruct (isSome (videoFile s) && isExtracting s); [|exact H].
    by apply stopExtracting_timerInv.
  - by destruct (isSome (videoFile s) && negb _).
  - by destruct (isSome (videoFile s)).
  - by destruct (existsb _ _).
  - destruct (timers s !! t); [|exact H].
    by apply intervalCallback_timerInv.
Qed.

Lemma reachable_timerInv s : reachable s -> timerInv s.
Proof.
  revert s. apply reachable_ind.
  - split; [simpl; lia|]. by simpl.
  - intros s e _. apply step_timerInv.
Qed.

(** ** What one event does to the frame store *)

Lemma toggleFrame_id i f : id (toggleFrame i f) = id f.
Proof. unfold toggleFrame. by destruct (Nat.eqb _ _). Qed.

Lemma toggleFrame_eyeSide i f : eyeSide (toggleFrame i f) = eyeSide f.
Proof. unfold toggleFrame. by destruct (Nat.eqb _ _). Qed.

Lemma toggleFrame_fileName i f : fileName (toggleFrame i f) = fileName f.
Proof. unfold toggleFrame. by destruct (Nat.eqb _ _). Qed.

Lemma toggleFrame_twice i f : toggleFrame i (toggleFrame i f) = f.
Proof.
  unfold toggleFrame. destruct (Nat.eqb (id f) i) eqn:E; simpl.
  - rewrite E. destruct f; simpl. by rewrite negb_involutive.
  - by rewrite E.
Qed.

Lemma toggleFrame_other i f : id f <> i -> toggleFrame i f = f.
Proof.
  intros H. unfold toggleFrame.
  by destruct (Nat.eqb_spec (id f) i).
Qed.

(** A playing tick of an active interval appends exactly one frame,
    tagged with what the interval captured, and bumps the counter. *)
Lemma step_tick_playing s t eye v :
  timers s !! t = Some eye -> playing v = true ->
  let s' := fst (step s (Tick t v)) in
  frames s' = frames s ++ [capturedFrame (globalFrameId s) eye v]
  /\ globalFrameId s' = globalFrameId s + 1
  /\ timers s' = timers s
  /\ frameIntervalRef s' = frameIntervalRef s
  /\ isExtracting s' = isExtracting s
  /\ eyeSideHook s' = eyeSideHook s.
Proof.
  intros Ht Hv. simpl. rewrite Ht. unfold intervalCallback.
  unfold playing in Hv. apply negb_true_iff in Hv. rewrite Hv. simpl.
  by repeat split.
Qed.

Lemma step_captures s e :
  captures s e = true ->
  exists t v eye,
    e = Tick t v /\ timers s !! t = Some eye /\ playing v = true.
Proof.
  destruct e as [| | | | | |t v]; try discriminate. simpl.
  intros [Ht Hv]%andb_true_iff.
  destruct (timers s !! t) as [eye|] eqn:E; [|discriminate]. eauto 6.
Qed.

(** Every other event leaves the counter alone, and the store is
    cleared, kept, or mapped by a selection toggle. *)
Lemma step_no_capture s e :
  captures s e = false ->
  let s' := fst (step s e) in
  globalFrameId s' = globalFrameId s
  /\ (frames s' = [] \/ frames s' = frames s
      \/ exists i, frames s' = List.map (toggleFrame i) (frames s)).
Proof.
  destruct e as [file| | | | |i|t v]; simpl; intros Hc.
  - destruct file as [f|]; simpl; [|auto].
    destruct (videoRef s); simpl; auto.
  - destruct (isSome (videoFile s) && negb (isExtracting s)); simpl; [|auto].
    unfold extractFrames.
    destruct (negb (videoRef s) || negb (canvasRef s)); simpl; [auto|].
    destruct (negb (context2d s)); simpl; auto.
  - destruct (isSome (videoFile s) && isExtracting s); simpl; [|auto].
    unfold stopExtracting. destruct (frameIntervalRef s) as [t|]; simpl; [|auto].
    destruct (truthy t); simpl; auto.
  - destruct (isSome (videoFile s) && negb _); simpl; auto.
  - destruct (isSome (videoFile s)); simpl; auto.
  - destruct (existsb _ _); simpl; eauto.
  - destruct (timers s !! t) as [eye|]; simpl; [|auto].
    simpl in Hc. unfold playing in Hc. apply negb_false_iff in Hc.
    unfold intervalCallback. rewrite Hc.
    unfold stopExtracting. destruct (frameIntervalRef s) as [t'|]; simpl; [|auto].
    destruct (truthy t'); simpl; auto.
Qed.

Lemma step_no_capture_length s e :
  captures s e = false ->
  length (frames (fst (step s e))) <= length (frames s).
Proof.
  intros H. destruct (step_no_capture s e H) as (_ & [-> | [-> | [i ->]]]).
  - simpl. lia.
  - lia.
  - by rewrite length_map.
Qed.

(** The counter counts the captures. *)
Lemma globalFrameId_run s es :
  globalFrameId (run s es) = globalFrameId s + captureCount s es.
Proof.
  revert s. induction es as [|e es IH]; intros s; [simpl; lia|].
  rewrite run_cons, IH. simpl.
  destruct (captures s e) eqn:Hc.
  - destruct (step_captures s e Hc) as (t & v & eye & -> & Ht & Hv).
    destruct (step_tick_playing s t eye v Ht Hv) as (_ & -> & _). lia.
  - destruct (step_no_capture s e Hc) as [-> _]. lia.
Qed.

(** ** The frame-store invariant *)

Lemma map_id_toggle i (l : list Frame) :
  List.map id (List.map (toggleFrame i) l) = List.map id l.
Proof.
  rewrite List.map_map. apply List.map_ext. intros f. apply toggleFrame_id.
Qed.

Lemma step_framesInv s e : framesInv s -> framesInv (fst (step s e)).
Proof.
  intros (Hwf & Hsort & Hlt). destruct (captures s e) eqn:Hc.
  - destruct (step_captures s e Hc) as (t & v & eye & -> & Ht & Hv).
    destruct (step_tick_playing s t eye v Ht Hv) as (Hf & Hg & _).
    unfold framesInv. rewrite Hf, Hg. split; [|split].
    + apply Forall_app. split; [exact Hwf|]. by repeat constructor.
    + rewrite List.map_app. apply StronglySorted_app. split; [|split].
      * intros x1 x2 Hx1 Hx2. simpl in Hx2.
        apply list_elem_of_singleton in Hx2 as ->.
        apply list_elem_of_fmap in Hx1 as (f & -> & Hin).
        rewrite Forall_forall in Hlt. by apply Hlt.
      * exact Hsort.
      * simpl. repeat constructor.
    + apply Forall_app. split.
      * eapply Forall_impl; [exact Hlt|]. simpl. intros; lia.
      * repeat constructor. simpl. lia.
  - destruct (step_no_capture s e Hc) as (Hg & [Hf | [Hf | [i Hf]]]);
      unfold framesInv; rewrite Hf, Hg.
    + repeat split; constructor.
    + by repeat split.
    + split; [|split].
      * apply Forall_forall. intros f' Hin.
        apply list_elem_of_In, in_map_iff in Hin as (f & <- & Hin).
        unfold wfFrame.
        rewrite toggleFrame_fileName, toggleFrame_id, toggleFrame_eyeSide.
        rewrite Forall_forall in Hwf. by apply Hwf, list_elem_of_In.
      * by rewrite map_id_toggle.
      * apply Forall_forall. intros f' Hin.
        apply list_elem_of_In, in_map_iff in Hin as (f & <- & Hin).
        rewrite toggleFrame_id.
        rewrite Forall_forall in Hlt. by apply Hlt, list_elem_of_In.
Qed.

Lemma reachable_framesInv s : reachable s -> framesInv s.
Proof.
  revert s. apply reachable_ind.
  - repeat split; constructor.
  - intros s e _. apply step_framesInv.
Qed.

(** ** Selection toggle *)

Lemma map_toggleFrame_twice i (l : list Frame) :
  List.map (toggleFrame i) (List.map (toggleFrame i) l) = l.
Proof.
  induction l as [|f l IH]; simpl; [done|].
  by rewrite toggleFrame_twice, IH.
Qed.

Lemma map_toggleFrame_absent i (l : list Frame) :
  Forall (fun f => id f <> i) l -> List.map (toggleFrame i) l = l.
Proof.
  induction 1 as [|f l Hf _ IH]; simpl; [done|].
  by rewrite toggleFrame_other, IH.
Qed.

(** C7: for every state and every id, toggling the selection of that id
    twice gives back the original state (hence the original frame
    store), and toggling an id that no stored frame has leaves the state
    unchanged. *)
Theorem toggleFrameSelection_twice_and_absent (s : State) (i : nat) :
  toggleFrameSelection i (toggleFrameSelection i s) = s
  /\ (Forall (fun f => id f <> i) (frames s) -> toggleFrameSelection i s = s).
Proof.
  split.
  - unfold toggleFrameSelection, setFrames. simpl.
    rewrite map_toggleFrame_twice. by destruct s.
  - intros H. unfold toggleFrameSelection, setFrames.
    rewrite (map_toggleFrame_absent i _ H). by destruct s.
Qed.

Lemma toggleFrameSelection_witness :
  Forall (fun f => id f <> 7) (frames twoFramesState)
  /\ toggleFrameSelection 7 twoFramesState = twoFramesState
  /\ toggleFrameSelection 1 (toggleFrameSelection 1 twoFramesState)
     = twoFramesState.
Proof.
  assert (Forall (fun f => id f <> 7) (frames twoFramesState)) as H.
  { vm_compute. repeat constructor; discriminate. }
  split; [exact H|]. split.
  - exact (proj2 (toggleFrameSelection_twice_and_absent twoFramesState 7) H).
  - exact (proj1 (toggleFrameSelection_twice_and_absent twoFramesState 1)).
Defined.

(** ** Start and stop *)

Lemma timerInv_size s : timerInv s -> size (timers s) <= 1.
Proof.
  intros [_ H]. destruct (frameIntervalRef s).
  - destruct H as (_ & [eye ->] & _). by rewrite map_size_singleton.
  - destruct H as [-> _]. rewrite map_size_empty. lia.
Qed.

Lemma timerInv_running s :
  timerInv s -> isExtracting s = true -> size (timers s) = 1.
Proof.
  intros [_ H] Hx. destruct (frameIntervalRef s).
  - destruct H as (_ & [eye ->] & _). by rewrite map_size_singleton.
  - destruct H as [_ H]. congruence.
Qed.

Lemma timerInv_idle s :
  timerInv s -> timers s = ∅ ->
  frameIntervalRef s = None /\ isExtracting s = false.
Proof.
  intros [_ H] He. destruct (frameIntervalRef s) as [t|]; [|tauto].
  destruct H as (_ & [eye H] & _). rewrite H in He.
  by apply map_non_empty_singleton in He.
Qed.

(** C3 (as amended): the start button is disabled while [isExtracting]
    holds, so in every state the page can reach a click on it while
    capture runs changes nothing and asks for nothing, and at most one
    interval is active (exactly one while capture runs). *)
Theorem start_button_guarded (s : State) :
  reachable s ->
  size (timers s) <= 1
  /\ (isExtracting s = true ->
      step s ClickStart = (s, []) /\ size (timers s) = 1).
Proof.
  intros Hr. pose proof (reachable_timerInv s Hr) as Hinv. split.
  - by apply timerInv_size.
  - intros Hx. split; [|by apply timerInv_running].
    simpl. rewrite Hx. by rewrite andb_false_r.
Qed.

Lemma start_button_guarded_witness :
  reachable runningState
  /\ isExtracting runningState = true
  /\ size (timers runningState) <= 1
  /\ step runningState ClickStart = (runningState, [])
  /\ size (timers runningState) = 1.
Proof.
  assert (reachable runningState) as Hr
    by (exists [Upload (Some demoFile); ClickStart]; reflexivity).
  assert (isExtracting runningState = true) as Hx by reflexivity.
  destruct (start_button_guarded runningState Hr) as [H1 H2].
  destruct (H2 Hx) as [H3 H4]. auto.
Defined.

(** C3 (as stated) fails for the function itself: [extractFrames] has no
    guard of its own, so calling it in a state where capture runs
    registers a second interval and changes the state. *)
Lemma extractFrames_unguarded_counterexample :
  isExtracting runningState = true
  /\ size (timers runningState) = 1
  /\ size (timers (fst (extractFrames runningState))) = 2
  /\ fst (extractFrames runningState) <> runningState.
Proof.
  split; [reflexivity|]. split; [reflexivity|]. split; [reflexivity|].
  intros H. apply (f_equal nextTimer) in H. vm_compute in H. discriminate.
Qed.

Lemma step_idle s e :
  timerInv s -> timers s = ∅ -> e <> ClickStart ->
  timers (fst (step s e)) = ∅ /\ captures s e = false.
Proof.
  intros Hinv He Hne. destruct (timerInv_idle s Hinv He) as [Href Hx].
  destruct e as [file| | | | |i|t v]; simpl.
  - split; [|done]. destruct file as [f|]; simpl; [|done].
    by destruct (videoRef s).
  - done.
  - rewrite Hx, andb_false_r. done.
  - by destruct (isSome (videoFile s) && negb _).
  - by destruct (isSome (videoFile s)).
  - by destruct (existsb _ _).
  - rewrite He, lookup_empty. done.
Qed.

Lemma run_idle s es :
  timerInv s -> timers s = ∅ -> Forall (fun e => e <> ClickStart) es ->
  timers (run s es) = ∅ /\ captureCount s es = 0
  /\ length (frames (run s es)) <= length (frames s).
Proof.
  intros Hinv He Hes. revert s Hinv He.
  induction Hes as [|e es Hne _ IH]; intros s Hinv He.
  - simpl. auto.
  - destruct (step_idle s e Hinv He Hne) as [He' Hc].
    destruct (IH _ (step_timerInv s e Hinv) He') as (H1 & H2 & H3).
    rewrite run_cons. simpl. rewrite Hc, H2.
    pose proof (step_no_capture_length s e Hc). repeat split; [done|lia].
Qed.

(** C8: in every reachable state, when an interval fires while the
    video is paused or has ended, that tick appends no frame, cancels
    the interval and leaves the running state; and whatever happens
    next, short of a new click on start, no interval is active, no tick
    captures a frame, the id counter stays where it was and the store
    does not grow. *)
Theorem tick_on_stopped_video (s : State) (t : nat) (eye : EyeSide)
    (v : VideoSample) (es : list Event) :
  reachable s ->
  timers s !! t = Some eye ->
  paused v || ended v = true ->
  Forall (fun e => e <> ClickStart) es ->
  let s1 := fst (step s (Tick t v)) in
  let s2 := run s1 es in
  (frames s1 = frames s /\ timers s1 = ∅ /\ frameIntervalRef s1 = None
   /\ isExtracting s1 = false)
  /\ (timers s2 = ∅ /\ isExtracting s2 = false /\ captureCount s1 es = 0
      /\ globalFrameId s2 = globalFrameId s
      /\ length (frames s2) <= length (frames s)).
Proof.
  intros Hr Ht Hv Hes s1 s2.
  pose proof (reachable_timerInv s Hr) as Hinv.
  assert (s1 = stopExtracting s) as Hs1.
  { unfold s1. simpl. rewrite Ht. unfold intervalCallback. by rewrite Hv. }
  destruct (stopExtracting_stops s Hinv) as (Ht1 & Hx1 & Hr1).
  rewrite <- Hs1 in Ht1, Hx1, Hr1.
  assert (frames s1 = frames s /\ globalFrameId s1 = globalFrameId s)
    as [Hf1 Hg1].
  { rewrite Hs1. unfold stopExtracting.
    destruct (frameIntervalRef s) as [t'|]; [destruct (truthy t')|]; done. }
  split; [done|].
  assert (timerInv s1) as Hinv1 by (rewrite Hs1; by apply stopExtracting_timerInv).
  destruct (run_idle s1 es Hinv1 Ht1 Hes) as (H1 & H2 & H3).
  assert (reachable s2) as Hr2 by (apply reachable_run, reachable_step, Hr).
  destruct (timerInv_idle s2 (reachable_timerInv s2 Hr2) H1) as [_ Hx2].
  repeat split; try done.
  - unfold s2. rewrite globalFrameId_run, H2, Hg1. lia.
  - fold s2 in H3. rewrite Hf1 in H3. exact H3.
Qed.

Lemma tick_on_stopped_video_witness :
  reachable twoFramesState
  /\ timers twoFramesState !! 1 = Some OD
  /\ paused pausedSample || ended pausedSample = true
  /\ Forall (fun e => e <> ClickStart) [Tick 1 sample2; ClickFrame 0; ClickStop]
  /\ length (frames (run (fst (step twoFramesState (Tick 1 pausedSample)))
                       [Tick 1 sample2; ClickFrame 0; ClickStop])) <= 2.
Proof.
  assert (reachable twoFramesState) as Hr
    by (apply reachable_run; exists [Upload (Some demoFile); ClickStart];
        reflexivity).
  assert (timers twoFramesState !! 1 = Some OD) as Ht by reflexivity.
  assert (paused pausedSample || ended pausedSample = true) as Hv by reflexivity.
  assert (Forall (fun e => e <> ClickStart)
            [Tick 1 sample2; ClickFrame 0; ClickStop]) as Hes
    by (repeat constructor; discriminate).
  repeat (split; [assumption|]).
  exact (proj2 (proj2 (proj2 (proj2 (proj2
    (tick_on_stopped_video twoFramesState 1 OD pausedSample _ Hr Ht Hv Hes)))))).
Defined.

(** ** Capture order *)

Lemma run_ticks s t eye vs :
  timers s !! t = Some eye ->
  Forall (fun v => playing v = true) vs ->
  let s' := run s (List.map (Tick t) vs) in
  frames s' = frames s ++ capturedFrames (globalFrameId s) eye vs
  /\ globalFrameId s' = globalFrameId s + length vs
  /\ timers s' = timers s.
Proof.
  intros Ht Hvs. revert s Ht.
  induction Hvs as [|v vs Hv _ IH]; intros s Ht; cbv zeta.
  - simpl. rewrite app_nil_r. repeat split; lia.
  - destruct (step_tick_playing s t eye v Ht Hv) as (Hf & Hg & Htm & _).
    change (List.map (Tick t) (v :: vs))
      with (Tick t v :: List.map (Tick t) vs).
    rewrite run_cons. rewrite <- Htm in Ht.
    destruct (IH _ Ht) as (IH1 & IH2 & IH3).
    rewrite IH1, IH2, IH3, Hf, Hg, Htm, <- app_assoc. simpl.
    repeat split; lia.
Qed.

Lemma capturedFrames_length g eye vs :
  length (capturedFrames g eye vs) = length vs.
Proof. revert g. induction vs as [|v vs IH]; intros g; simpl; [done|]. by rewrite IH. Qed.

Lemma capturedFrames_ids g eye vs :
  List.map id (capturedFrames g eye vs) = seq g (length vs).
Proof.
  revert g. induction vs as [|v vs IH]; intros g; simpl; [done|].
  rewrite IH. by replace (g + 1) with (S g) by lia.
Qed.

Lemma capturedFrames_takenAt g eye vs :
  List.map takenAt (capturedFrames g eye vs) = List.map now vs.
Proof.
  revert g. induction vs as [|v vs IH]; intros g; simpl; [done|]. by rewrite IH.
Qed.

Lemma capturedFrames_eyeSide g eye vs :
  Forall (fun f => eyeSide f = eye /\ selected f = false)
    (capturedFrames g eye vs).
Proof.
  revert g. induction vs as [|v vs IH]; intros g; simpl; constructor; auto.
Qed.

Lemma seq_StronglySorted g n : StronglySorted lt (seq g n).
Proof.
  revert g. induction n as [|n IH]; intros g; simpl; constructor; [apply IH|].
  apply Forall_forall. intros x Hx%list_elem_of_In%in_seq. lia.
Qed.

(** C4 (as the code has it): in a fresh session (counter at 0, empty
    store) with capture running, every sequence of N ticks on a playing
    video appends exactly N frames; their ids are 0, 1, ..., N-1 in
    capture order, hence strictly increasing and pairwise distinct; the
    capture timestamp of each frame is the reading [new Date()] gave at
    its tick, so the timestamps are non-decreasing exactly when those
    readings of the system clock are. *)
Theorem ticks_append_frames (s : State) (t : nat) (eye : EyeSide)
    (vs : list VideoSample) :
  globalFrameId s = 0 ->
  frames s = [] ->
  timers s !! t = Some eye ->
  Forall (fun v => playing v = true) vs ->
  let s' := run s (List.map (Tick t) vs) in
  length (frames s') = length vs
  /\ List.map id (frames s') = seq 0 (length vs)
  /\ StronglySorted lt (List.map id (frames s'))
  /\ NoDup (List.map id (frames s'))
  /\ List.map takenAt (frames s') = List.map now vs
  /\ (StronglySorted Z.le (List.map takenAt (frames s'))
      <-> StronglySorted Z.le (List.map now vs)).
Proof.
  intros Hg Hf Ht Hvs s'.
  destruct (run_ticks s t eye vs Ht Hvs) as (H & _). fold s' in H.
  rewrite Hf, Hg in H. simpl in H. rewrite H.
  rewrite capturedFrames_length, capturedFrames_ids, capturedFrames_takenAt.
  repeat split; try done.
  - apply seq_StronglySorted.
  - apply NoDup_ListNoDup, seq_NoDup.
Qed.

Lemma ticks_append_frames_witness :
  globalFrameId runningState = 0
  /\ frames runningState = []
  /\ timers runningState !! 1 = Some OD
  /\ Forall (fun v => playing v = true) [sample0; sample1; sample2]
  /\ StronglySorted Z.le (List.map now [sample0; sample1; sample2])
  /\ List.map id
       (frames (run runningState (List.map (Tick 1) [sample0; sample1; sample2])))
     = [0; 1; 2]
  /\ StronglySorted Z.le
       (List.map takenAt
          (frames (run runningState
                     (List.map (Tick 1) [sample0; sample1; sample2])))).
Proof.
  assert (Forall (fun v => playing v = true) [sample0; sample1; sample2]) as Hvs
    by (repeat constructor).
  assert (StronglySorted Z.le (List.map now [sample0; sample1; sample2]))
    as Hclock by (repeat constructor; discriminate).
  do 3 (split; [reflexivity|]). split; [exact Hvs|]. split; [exact Hclock|].
  pose proof (ticks_append_frames runningState 1 OD [sample0; sample1; sample2]
                eq_refl eq_refl eq_refl Hvs) as (_ & Hids & _ & _ & _ & Htime).
  split; [exact Hids | exact (proj2 Htime Hclock)].
Defined.

(** C4 (the timestamps can decrease): capture runs in a fresh session on
    a playing video and the system clock is set back by half a second
    between two ticks. Two frames are stored with the ids 0 and 1, and
    the second one carries the earlier capture time. *)
Lemma timestamps_decrease_when_clock_is_set_back :
  globalFrameId runningState = 0
  /\ frames runningState = []
  /\ timers runningState !! 1 = Some OD
  /\ Forall (fun v => playing v = true) clockSetBack
  /\ List.map id
       (frames (run runningState (List.map (Tick 1) clockSetBack)))
     = [0; 1]
  /\ List.map takenAt
       (frames (run runningState (List.map (Tick 1) clockSetBack)))
     = [1700000000623; 1700000000123]%Z
  /\ ~ StronglySorted Z.le
         (List.map takenAt
            (frames (run runningState (List.map (Tick 1) clockSetBack)))).
Proof.
  assert (List.map takenAt
            (frames (run runningState (List.map (Tick 1) clockSetBack)))
          = [1700000000623; 1700000000123]%Z) as Htime
    by (vm_compute; reflexivity).
  do 3 (split; [reflexivity|]).
  split; [repeat constructor|].
  split; [vm_compute; reflexivity|].
  split; [exact Htime|].
  rewrite Htime. intros Hsorted.
  apply StronglySorted_inv in Hsorted as [_ Hall].
  apply Forall_inv in Hall. lia.
Qed.

(** ** Loading another video *)

Lemma run_no_capture_empty s es :
  frames s = [] -> captureCount s es = 0 -> frames (run s es) = [].
Proof.
  revert s. induction es as [|e es IH]; intros s Hf Hc; [done|].
  simpl in Hc. rewrite run_cons. destruct (captures s e) eqn:He; [lia|].
  apply IH; [|lia].
  destruct (step_no_capture s e He) as (_ & [H | [H | [i H]]]);
    rewrite H; [done|done|by rewrite Hf].
Qed.

(** C9: loading a video empties the store and leaves the id counter
    untouched, and that counter equals the number of frames captured
    since the page was loaded; so the first frame captured after the new
    video is loaded gets that number as its id (ids go on from where
    they were instead of restarting at 0). *)
Theorem upload_keeps_counter (es : list Event) (file : File)
    (es2 : list Event) (t : nat) (v : VideoSample) :
  let s0 := run mounted es in
  let s1 := fst (step s0 (Upload (Some file))) in
  let s2 := run s1 es2 in
  captureCount s1 es2 = 0 ->
  captures s2 (Tick t v) = true ->
  frames s1 = []
  /\ globalFrameId s1 = globalFrameId s0
  /\ globalFrameId s0 = captureCount mounted es
  /\ exists fr,
       frames (fst (step s2 (Tick t v))) = [fr]
       /\ id fr = captureCount mounted es.
Proof.
  intros s0 s1 s2 Hc2 Hcap.
  assert (frames s1 = [] /\ globalFrameId s1 = globalFrameId s0) as [Hf1 Hg1].
  { unfold s1. simpl. by destruct (videoRef s0). }
  assert (globalFrameId s0 = captureCount mounted es) as Hg0.
  { unfold s0. by rewrite globalFrameId_run. }
  repeat split; try done.
  destruct (step_captures s2 _ Hcap) as (t' & v' & eye & [= <- <-] & Ht & Hv).
  destruct (step_tick_playing s2 t eye v Ht Hv) as (Hf & _).
  exists (capturedFrame (globalFrameId s2) eye v). split.
  - rewrite Hf. unfold s2. by rewrite (run_no_capture_empty s1 es2 Hf1 Hc2).
  - simpl. unfold s2. rewrite globalFrameId_run, Hc2, Hg1, Hg0. lia.
Qed.

Lemma upload_keeps_counter_witness :
  captureCount
    (fst (step (run mounted [Upload (Some demoFile); ClickStart;
                             Tick 1 sample0; Tick 1 sample1; Tick 1 pausedSample])
            (Upload (Some (mkFile "second.mp4")))))
    [ClickStart] = 0
  /\ captures
       (run (fst (step (run mounted [Upload (Some demoFile); ClickStart;
                             Tick 1 sample0; Tick 1 sample1; Tick 1 pausedSample])
                   (Upload (Some (mkFile "second.mp4")))))
          [ClickStart])
       (Tick 2 sample2) = true
  /\ exists fr,
       frames
         (fst (step
            (run (fst (step (run mounted [Upload (Some demoFile); ClickStart;
                             Tick 1 sample0; Tick 1 sample1; Tick 1 pausedSample])
                        (Upload (Some (mkFile "second.mp4")))))
               [ClickStart])
            (Tick 2 sample2))) = [fr]
       /\ id fr = 2.
Proof.
  split; [reflexivity|]. split; [reflexivity|].
  exact (proj2 (proj2 (proj2
    (upload_keeps_counter
       [Upload (Some demoFile); ClickStart;
        Tick 1 sample0; Tick 1 sample1; Tick 1 pausedSample]
       (mkFile "second.mp4") [ClickStart] 2 sample2 eq_refl eq_refl)))).
Defined.

(** ** The eye-side tag during a running capture *)

(** Clicking the eye-side button changes the hook and nothing the
    running interval reads. *)
Lemma ClickEyeSide_keeps_timers s :
  timers (fst (step s ClickEyeSide)) = timers s
  /\ frames (fst (step s ClickEyeSide)) = frames s.
Proof. simpl. by destruct (isSome (videoFile s)). Qed.

(** No event rewrites the tag, the id or the file name of a stored
    frame. *)
Lemma step_keeps_tags s e f' :
  In f' (frames (fst (step s e))) ->
  (exists f, In f (frames s) /\ id f = id f' /\ eyeSide f = eyeSide f'
             /\ fileName f = fileName f')
  \/ (captures s e = true /\ id f' = globalFrameId s).
Proof.
  intros Hin. destruct (captures s e) eqn:Hc.
  - destruct (step_captures s e Hc) as (t & v & eye & -> & Ht & Hv).
    destruct (step_tick_playing s t eye v Ht Hv) as (Hf & _).
    rewrite Hf in Hin. apply in_app_or in Hin as [Hin | [<- | []]].
    + left. by exists f'.
    + by right.
  - left. destruct (step_no_capture s e Hc) as (_ & [H | [H | [i H]]]);
      rewrite H in Hin.
    + destruct Hin.
    + by exists f'.
    + apply in_map_iff in Hin as (f & <- & Hin). exists f.
      by rewrite toggleFrame_id, toggleFrame_eyeSide, toggleFrame_fileName.
Qed.

(** C2 (what the code does): capture is started with the tag at OD, one
    frame is captured, the eye-side button is clicked (the hook now says
    OE), and the next tick still captures a frame tagged and named OD:
    the interval callback keeps the tag of the render that started it. *)
Lemma eyeSide_toggle_missed_by_running_capture :
  eyeSideHook toggledBetweenState = OE
  /\ List.map eyeSide (frames toggledBetweenState) = [OD; OD]
  /\ List.map fileName (frames toggledBetweenState)
     = ["frame_0_OD.png"; "frame_1_OD.png"].
Proof. vm_compute. auto. Qed.

(** ** Which frames are exported *)

(** Individual download follows the rule. *)
Lemma downloadAllImages_exportSet s :
  frames s <> [] ->
  downloadAllImages s
  = Alert (pretty (length (exportSet (frames s)))
           +:+ " imagens serão baixadas. Confirme os downloads no seu navegador.")
    :: List.map (fun frame => LinkClick (uri frame) (fileName frame))
         (exportSet (frames s)).
Proof.
  intros Hne. unfold downloadAllImages, exportSet.
  destruct (List.filter selected (frames s)) as [|f sel]; simpl.
  - destruct (frames s); [done|]. reflexivity.
  - reflexivity.
Qed.

(** Archive export does not: with nothing selected it only alerts. *)
Lemma downloadSelectedImages_none_selected s :
  List.filter selected (frames s) = [] ->
  downloadSelectedImages s
  = [Alert "Nenhuma imagem foi selecionada, todas serão baixadas."].
Proof. intros H. unfold downloadSelectedImages. by rewrite H. Qed.

(** C1 (what the code does): with two frames captured and none selected,
    the export set is both frames and individual download clicks a link
    for each, but archive export shows the notice that all images will
    be downloaded and returns without saving any archive. *)
Lemma archive_export_aborts_when_none_selected :
  exportSet (frames twoFramesState) = frames twoFramesState
  /\ length (frames twoFramesState) = 2
  /\ downloadAllImages twoFramesState
     = [Alert "2 imagens serão baixadas. Confirme os downloads no seu navegador.";
        LinkClick "data:image/png;base64,AAAA" "frame_0_OD.png";
        LinkClick "data:image/png;base64,BBBB" "frame_1_OD.png"]
  /\ downloadSelectedImages twoFramesState
     = [Alert "Nenhuma imagem foi selecionada, todas serão baixadas."].
Proof. vm_compute. auto. Qed.

(** ** The archive *)

Lemma length_append (a b : string) :
  String.length (a +:+ b) = String.length a + String.length b.
Proof. induction a as [|c a IH]; simpl; [done|]. by rewrite IH. Qed.

(** Equal strings with tails of equal length have equal heads. *)
Lemma append_inj_tail (a b s1 s2 : string) :
  String.length s1 = String.length s2 ->
  a +:+ s1 = b +:+ s2 -> a = b /\ s1 = s2.
Proof.
  intros Hlen. revert b.
  induction a as [|c a IH]; intros [|c' b] H.
  - done.
  - apply (f_equal String.length) in H.
    rewrite !length_append in H. simpl in H. lia.
  - apply (f_equal String.length) in H.
    rewrite !length_append in H. simpl in H. lia.
  - change (String c (a +:+ s1) = String c' (b +:+ s2)) in H.
    injection H as -> H. destruct (IH _ H) as [-> ->]. done.
Qed.

Lemma frameFileName_unfold n e :
  frameFileName n e
  = String "f" (String "r" (String "a" (String "m" (String "e" (String "_"
      (pretty n +:+ "_" +:+ eyeSideCode e +:+ ".png")))))).
Proof. reflexivity. Qed.

Lemma frameFileName_inj n e n' e' :
  frameFileName n e = frameFileName n' e' -> n = n' /\ e = e'.
Proof.
  rewrite !frameFileName_unfold. intros [= H].
  apply append_inj_tail in H as [H1 H2].
  - split; [by apply (inj pretty)|].
    destruct e, e'; simpl in H2; done.
  - by destruct e, e'.
Qed.

Lemma zipPath_wf f :
  wfFrame f ->
  zipPath f
  = eyeSideCode (eyeSide f) +:+ "/" +:+ frameFileName (id f) (eyeSide f).
Proof. unfold zipPath, wfFrame. by intros ->. Qed.

Lemma folder_path_inj e e' (x y : string) :
  eyeSideCode e +:+ "/" +:+ x = eyeSideCode e' +:+ "/" +:+ y -> x = y.
Proof.
  intros H.
  assert (forall c z, eyeSideCode c +:+ "/" +:+ z
                      = String "O" (String (match c with OD => "D" | OE => "E" end)
                                      (String "/" z))) as Hu
    by (by intros []).
  rewrite !Hu in H. by injection H.
Qed.

Lemma zipPath_inj f g :
  wfFrame f -> wfFrame g -> zipPath f = zipPath g -> id f = id g.
Proof.
  intros Hf Hg. rewrite (zipPath_wf f Hf), (zipPath_wf g Hg).
  intros H%folder_path_inj. by apply frameFileName_inj in H as [? ?].
Qed.

Lemma zipPath_not_folder f :
  wfFrame f -> zipPath f <> "OD/" /\ zipPath f <> "OE/".
Proof.
  intros Hf. rewrite (zipPath_wf f Hf), frameFileName_unfold.
  destruct (eyeSide f); cbn [eyeSideCode String.append]; split; discriminate.
Qed.

Lemma zipPath_not_manifest f : zipPath f <> "frames_info.json".
Proof.
  unfold zipPath. destruct (eyeSide f); cbn [eyeSideCode String.append];
    discriminate.
Qed.

Lemma zipPath_prefix f folder :
  String.prefix (eyeSideCode folder +:+ "/") (zipPath f) = true ->
  eyeSide f = folder.
Proof.
  unfold zipPath.
  destruct (eyeSide f), folder; cbn [eyeSideCode String.append];
    try done; simpl; destruct (fileName f); discriminate.
Qed.

(** With both folders in place, adding a frame is one insertion. *)
Lemma addFrameToZip_insert (zip : gmap string ZipObject) f :
  is_Some (zip !! "OD/") -> is_Some (zip !! "OE/") ->
  addFrameToZip "OD/" "OE/" zip f = <[zipPath f := zipEntry f]> zip.
Proof.
  intros [o1 H1] [o2 H2]. unfold addFrameToZip, zipFile, zipPath, zipEntry.
  destruct (eyeSide f); simpl; unfold folderAdd.
  - rewrite H1. by destruct (split _ _ !! 1%nat).
  - rewrite H2. by destruct (split _ _ !! 1%nat).
Qed.

Lemma fold_addFrameToZip (zip : gmap string ZipObject) fs :
  is_Some (zip !! "OD/") -> is_Some (zip !! "OE/") ->
  fold_left (addFrameToZip "OD/" "OE/") fs zip
  = fold_left (fun z f => <[zipPath f := zipEntry f]> z) fs zip.
Proof.
  revert zip. induction fs as [|f fs IH]; intros zip H1 H2; simpl; [done|].
  rewrite addFrameToZip_insert by done.
  apply IH; apply lookup_insert_is_Some'; by right.
Qed.

Section fold_insert.
Context {A V : Type} (key : A -> string) (val : A -> V).

Local Abbreviation put := (fun (z : gmap string V) (x : A) => <[key x := val x]> z).

Lemma lookup_fold_insert_other (l : list A) (z : gmap string V) p :
  Forall (fun x => key x <> p) l -> fold_left put l z !! p = z !! p.
Proof.
  intros H. revert z. induction H as [|x l Hx _ IH]; intros z; simpl; [done|].
  rewrite IH. by rewrite lookup_insert_ne.
Qed.

Lemma lookup_fold_insert_inv (l : list A) (z : gmap string V) p o :
  fold_left put l z !! p = Some o ->
  z !! p = Some o \/ exists x, In x l /\ key x = p /\ val x = o.
Proof.
  revert z. induction l as [|x l IH]; intros z; simpl; [auto|].
  intros H. apply IH in H as [H | (y & Hy & Hk & Hv)].
  - rewrite lookup_insert in H.
    destruct (decide (key x = p)) as [Hk|Hk].
    + injection H as <-. right. exists x. auto.
    + by left.
  - right. exists y. auto.
Qed.

Lemma lookup_fold_insert_NoDup (l : list A) (z : gmap string V) x :
  List.NoDup (List.map key l) -> In x l ->
  fold_left put l z !! key x = Some (val x).
Proof.
  revert z. induction l as [|y l IH]; intros z Hnd Hin; [destruct Hin|].
  simpl in *. apply List.NoDup_cons_iff in Hnd as [Hy Hnd].
  destruct Hin as [-> | Hin].
  - rewrite lookup_fold_insert_other.
    + by rewrite lookup_insert_eq.
    + apply Forall_forall. intros x' Hx'%list_elem_of_In Heq.
      apply Hy. rewrite <- Heq. by apply in_map.
  - by apply IH.
Qed.

End fold_insert.

Lemma NoDup_map_inj_on {A B C} (h : A -> B) (k : A -> C) (l : list A) :
  (forall x y, In x l -> In y l -> k x = k y -> h x = h y) ->
  List.NoDup (List.map h l) -> List.NoDup (List.map k l).
Proof.
  induction l as [|x l IH]; intros Hinj Hnd; simpl in *; [constructor|].
  apply List.NoDup_cons_iff in Hnd as [Hx Hnd]. constructor.
  - intros Hin. apply in_map_iff in Hin as (y & Hk & Hy).
    apply Hx. rewrite <- (Hinj y x); auto. by apply in_map.
  - apply IH; auto.
Qed.

Lemma StronglySorted_lt_NoDup (l : list nat) :
  StronglySorted lt l -> List.NoDup l.
Proof.
  induction 1 as [|x l _ IH Hx]; constructor; [|done].
  intros Hin. rewrite Forall_forall in Hx.
  apply list_elem_of_In, Hx in Hin. lia.
Qed.

Lemma NoDup_map_filter {A B} (h : A -> B) (p : A -> bool) (l : list A) :
  List.NoDup (List.map h l) -> List.NoDup (List.map h (List.filter p l)).
Proof.
  induction l as [|x l IH]; simpl; intros Hnd; [constructor|].
  apply List.NoDup_cons_iff in Hnd as [Hx Hnd].
  destruct (p x); simpl; [|by apply IH]. constructor; [|by apply IH].
  intros Hin. apply Hx. apply in_map_iff in Hin as (y & <- & Hy).
  apply filter_In in Hy as [Hy _]. by apply in_map.
Qed.

(** In a reachable state the selected frames go to pairwise distinct
    places of the archive. *)
Lemma reachable_zipPath_NoDup s :
  reachable s ->
  Forall wfFrame (List.filter selected (frames s))
  /\ List.NoDup (List.map zipPath (List.filter selected (frames s))).
Proof.
  intros (Hwf & Hsort & _)%reachable_framesInv.
  assert (Forall wfFrame (List.filter selected (frames s))) as Hwf'.
  { apply Forall_forall. intros f [Hf _]%list_elem_of_In%filter_In.
    rewrite Forall_forall in Hwf. by apply Hwf, list_elem_of_In. }
  split; [exact Hwf'|].
  apply (NoDup_map_inj_on id).
  - intros f g Hf Hg. rewrite Forall_forall in Hwf'.
    apply zipPath_inj; by apply Hwf', list_elem_of_In.
  - by apply NoDup_map_filter, StronglySorted_lt_NoDup.
Qed.

(** What [downloadSelectedImages] saves when something is selected. *)
Lemma downloadSelectedImages_archive s :
  List.filter selected (frames s) <> [] ->
  downloadSelectedImages s
  = [SaveAs
       (<["frames_info.json" :=
            ZFile (JSON_stringify
                     (JArr (List.map frameInfo (List.filter selected (frames s)))))
              false]>
          (fold_left (fun z f => <[zipPath f := zipEntry f]> z)
             (List.filter selected (frames s))
             (<["OE/" := ZDir]> (<["OD/" := ZDir]> ∅))))
       "frames_selecionados.zip"].
Proof.
  intros Hne. unfold downloadSelectedImages.
  destruct (List.filter selected (frames s)) as [|f sel] eqn:Hsel; [done|].
  cbn [length Nat.eqb zipFolder].
  change ("" +:+ "OD" +:+ "/") with "OD/".
  change ("" +:+ "OE" +:+ "/") with "OE/".
  assert (folderAdd "OE/" (folderAdd "OD/" ∅)
          = <["OE/" := ZDir]> (<["OD/" := ZDir]> (∅ : gmap string ZipObject)))
    as ->.
  { unfold folderAdd. rewrite lookup_empty.
    rewrite lookup_insert_ne by done. by rewrite lookup_empty. }
  rewrite fold_addFrameToZip.
  - unfold zipFile.
    change ("" +:+ "frames_info.json") with "frames_info.json".
    change (String.eqb "" "") with true. cbv iota.
    generalize (JSON_stringify (JArr (List.map frameInfo (f :: sel)))).
    intros text. by destruct (String.eqb_spec text "") as [->|_].
  - rewrite lookup_insert_ne by done. rewrite lookup_insert_eq. eauto.
  - rewrite lookup_insert_eq. eauto.
Qed.

Lemma downloadSelectedImages_SaveAs s zip name :
  In (SaveAs zip name) (downloadSelectedImages s) ->
  List.filter selected (frames s) <> []
  /\ name = "frames_selecionados.zip"
  /\ zip = <["frames_info.json" :=
               ZFile (manifestText (List.filter selected (frames s))) false]>
             (fold_left (fun z f => <[zipPath f := zipEntry f]> z)
                (List.filter selected (frames s))
                (<["OE/" := ZDir]> (<["OD/" := ZDir]> ∅))).
Proof.
  intros Hin.
  destruct (List.filter selected (frames s)) as [|f sel] eqn:Hsel.
  - rewrite downloadSelectedImages_none_selected in Hin by done.
    destruct Hin as [[=] | []].
  - rewrite downloadSelectedImages_archive in Hin by (by rewrite Hsel).
    rewrite Hsel in Hin. destruct Hin as [[= <- <-] | []]. done.
Qed.

(** Every entry of a saved archive, in a reachable state. *)
Lemma archive_entries s zip name :
  reachable s ->
  In (SaveAs zip name) (downloadSelectedImages s) ->
  zip !! "OD/" = Some ZDir
  /\ zip !! "OE/" = Some ZDir
  /\ zip !! "frames_info.json"
     = Some (ZFile (manifestText (List.filter selected (frames s))) false)
  /\ (forall f, In f (List.filter selected (frames s)) ->
        zip !! zipPath f = Some (zipEntry f))
  /\ (forall p o, zip !! p = Some o ->
        p = "OD/" \/ p = "OE/" \/ p = "frames_info.json"
        \/ exists f, In f (List.filter selected (frames s)) /\ p = zipPath f).
Proof.
  intros Hr (_ & _ & ->)%downloadSelectedImages_SaveAs.
  destruct (reachable_zipPath_NoDup s Hr) as [Hwf Hnd].
  set (sel := List.filter selected (frames s)) in *.
  assert (forall folder, folder = "OD/" \/ folder = "OE/" ->
            Forall (fun x => zipPath x <> folder) sel) as Hfolder.
  { intros folder Hfolder. eapply Forall_impl; [exact Hwf|].
    intros f [H1 H2]%zipPath_not_folder. by destruct Hfolder as [-> | ->]. }
  split; [|split; [|split; [|split]]].
  - rewrite lookup_insert_ne by done.
    rewrite lookup_fold_insert_other by auto.
    rewrite lookup_insert_ne by done. apply lookup_insert_eq.
  - rewrite lookup_insert_ne by done.
    rewrite lookup_fold_insert_other by auto. apply lookup_insert_eq.
  - apply lookup_insert_eq.
  - intros f Hf. rewrite lookup_insert_ne by (symmetry; apply zipPath_not_manifest).
    by apply lookup_fold_insert_NoDup.
  - intros p o. rewrite lookup_insert.
    destruct (decide ("frames_info.json" = p)) as [<-|_]; [auto|].
    intros [H | (f & Hf & <- & _)]%lookup_fold_insert_inv; [|eauto 6].
    rewrite lookup_insert in H.
    destruct (decide ("OE/" = p)) as [<-|_]; [auto|].
    rewrite lookup_insert in H.
    destruct (decide ("OD/" = p)) as [<-|_]; [auto|].
    by rewrite lookup_empty in H.
Qed.

(** *** The payload of a PNG data URL *)

Lemma split_without_sep sep s : containsChar sep s = false -> split sep s = [s].
Proof.
  induction s as [|c s IH]; simpl; [done|].
  intros [Hc Hs]%orb_false_iff. rewrite Hc, (IH Hs). done.
Qed.

Lemma split_append_sep sep a b :
  containsChar sep a = false ->
  split sep (a +:+ String sep b) = a :: split sep b.
Proof.
  induction a as [|c a IH]; intros Ha.
  - change ("" +:+ String sep b) with (String sep b). simpl.
    by rewrite Ascii.eqb_refl.
  - change (String c a +:+ String sep b) with (String c (a +:+ String sep b)).
    simpl in *. apply orb_false_iff in Ha as [Hc Ha].
    by rewrite Hc, (IH Ha).
Qed.

(** For the data URL of a canvas, the stored entry is the base64 text
    after the comma. *)
Lemma zipEntry_dataURL f d :
  uri f = "data:image/png;base64," +:+ d ->
  containsChar ","%char d = false -> d <> "" ->
  zipEntry f = ZFile d true.
Proof.
  intros Hu Hd Hne. unfold zipEntry. rewrite Hu.
  change ("data:image/png;base64," +:+ d)
    with ("data:image/png;base64" +:+ String ","%char d).
  rewrite split_append_sep by reflexivity.
  rewrite (split_without_sep _ d Hd). simpl.
  by destruct (String.eqb_spec d "").
Qed.

(** When a frame is selected, archive export does lay the archive out
    as described: in every reachable state with a selected frame it
    saves one archive named [frames_selecionados.zip]; the archive has
    the two top-level folders [OD/] and [OE/]; every exported frame is
    stored in the folder of its own eye side under its file name, as the
    base64 payload of its image; the manifest [frames_info.json] is one
    entry at the root; and the archive holds nothing else. *)
Theorem archive_export_layout (s : State) :
  reachable s ->
  List.filter selected (frames s) <> [] ->
  exists zip,
    downloadSelectedImages s = [SaveAs zip "frames_selecionados.zip"]
    /\ zip !! "OD/" = Some ZDir
    /\ zip !! "OE/" = Some ZDir
    /\ (forall f, In f (List.filter selected (frames s)) ->
          zip !! (eyeSideCode (eyeSide f) +:+ "/" +:+ fileName f)
          = Some (zipEntry f)
          /\ forall d, uri f = "data:image/png;base64," +:+ d ->
                       containsChar ","%char d = false -> d <> "" ->
                       zipEntry f = ZFile d true)
    /\ (exists text, zip !! "frames_info.json" = Some (ZFile text false))
    /\ (forall p o, zip !! p = Some o ->
          p = "OD/" \/ p = "OE/" \/ p = "frames_info.json"
          \/ exists f, In f (List.filter selected (frames s))
                       /\ p = eyeSideCode (eyeSide f) +:+ "/" +:+ fileName f).
Proof.
  intros Hr Hne. pose proof (downloadSelectedImages_archive s Hne) as Heq.
  eexists. split; [exact Heq|].
  edestruct (archive_entries s) as (H1 & H2 & H3 & H4 & H5);
    [exact Hr | rewrite Heq; left; reflexivity |].
  split; [exact H1|]. split; [exact H2|]. split; [|split].
  - intros f Hf. split; [by apply H4|]. apply zipEntry_dataURL.
  - eauto.
  - exact H5.
Qed.

Lemma reachable_bothSidesState : reachable bothSidesState.
Proof.
  unfold bothSidesState. eexists. reflexivity.
Qed.

Lemma reachable_oneSelectedState : reachable oneSelectedState.
Proof.
  apply reachable_run, reachable_run.
  exists [Upload (Some demoFile); ClickStart]. reflexivity.
Qed.

Lemma archive_export_layout_witness :
  reachable bothSidesState
  /\ List.filter selected (frames bothSidesState) <> []
  /\ exists zip,
       downloadSelectedImages bothSidesState
       = [SaveAs zip "frames_selecionados.zip"]
       /\ zip !! "OD/frame_0_OD.png" = Some (ZFile "AAAA" true)
       /\ zip !! "OE/frame_1_OE.png" = Some (ZFile "BBBB" true).
Proof.
  assert (List.filter selected (frames bothSidesState) <> []) as Hne
    by (vm_compute; discriminate).
  split; [exact reachable_bothSidesState|]. split; [exact Hne|].
  destruct (archive_export_layout bothSidesState reachable_bothSidesState Hne)
    as (zip & Hz & _ & _ & Hf & _).
  exists zip. split; [exact Hz|]. split.
  - apply (Hf (mkFrame 0 "data:image/png;base64,AAAA" "frame_0_OD.png"
                 1700000000123 true OD)).
    vm_compute. auto.
  - apply (Hf (mkFrame 1 "data:image/png;base64,BBBB" "frame_1_OE.png"
                 1700000000623 true OE)).
    vm_compute. auto.
Defined.

(** C5 (what the code does): three frames are captured and none is
    selected, so the export set is all three frames. Archive export
    shows the notice that all images will be downloaded and returns: it
    saves no archive at all, hence no folder per eye side, no image
    entry, no manifest and no [frames_selecionados.zip]. *)
Lemma archive_export_saves_nothing_for_whole_store :
  reachable threeFramesState
  /\ List.filter selected (frames threeFramesState) = []
  /\ List.map fileName (exportSet (frames threeFramesState))
     = ["frame_0_OD.png"; "frame_1_OD.png"; "frame_2_OD.png"]
  /\ downloadSelectedImages threeFramesState
     = [Alert "Nenhuma imagem foi selecionada, todas serão baixadas."]
  /\ existsb isSaveAs (downloadSelectedImages threeFramesState) = false
  /\ forall zip name,
       ~ In (SaveAs zip name) (downloadSelectedImages threeFramesState).
Proof.
  assert (List.filter selected (frames threeFramesState) = []) as Hnone
    by (vm_compute; reflexivity).
  split.
  { apply reachable_run. exists [Upload (Some demoFile); ClickStart].
    reflexivity. }
  split; [exact Hnone|].
  split; [vm_compute; reflexivity|].
  rewrite (downloadSelectedImages_none_selected _ Hnone).
  split; [reflexivity|]. split; [reflexivity|].
  intros zip name [[=] | []].
Qed.

(** C10: in every reachable state, every archive that archive export
    saves has both top-level folders [OD/] and [OE/]; when no exported
    frame has a given eye side, the folder of that side is there all
    the same and nothing is stored under it. *)
Theorem archive_has_both_folders (s : State) (zip : gmap string ZipObject)
    (name : string) :
  reachable s ->
  In (SaveAs zip name) (downloadSelectedImages s) ->
  zip !! "OD/" = Some ZDir
  /\ zip !! "OE/" = Some ZDir
  /\ (forall side,
        Forall (fun f => eyeSide f <> side) (List.filter selected (frames s)) ->
        forall p o, zip !! p = Some o ->
          String.prefix (eyeSideCode side +:+ "/") p = true ->
          p = eyeSideCode side +:+ "/").
Proof.
  intros Hr Hin.
  destruct (archive_entries s zip name Hr Hin) as (H1 & H2 & _ & _ & H5).
  split; [exact H1|]. split; [exact H2|].
  intros side Hside p o Hp Hpre.
  destruct (H5 p o Hp) as [-> | [-> | [-> | (f & Hf & ->)]]].
  - by destruct side.
  - by destruct side.
  - by destruct side.
  - apply zipPath_prefix in Hpre. rewrite Forall_forall in Hside.
    by apply list_elem_of_In, Hside in Hf.
Qed.

Lemma archive_has_both_folders_witness :
  reachable oneSelectedState
  /\ Forall (fun f => eyeSide f <> OE)
       (List.filter selected (frames oneSelectedState))
  /\ exists zip,
       In (SaveAs zip "frames_selecionados.zip")
         (downloadSelectedImages oneSelectedState)
       /\ zip !! "OD/" = Some ZDir
       /\ zip !! "OE/" = Some ZDir.
Proof.
  assert (List.filter selected (frames oneSelectedState) <> []) as Hne
    by (vm_compute; discriminate).
  pose proof (downloadSelectedImages_archive oneSelectedState Hne) as Heq.
  split; [exact reachable_oneSelectedState|].
  split; [vm_compute; repeat constructor; discriminate|].
  eexists. split; [rewrite Heq; left; reflexivity|].
  refine (let H := archive_has_both_folders oneSelectedState _ _
                     reachable_oneSelectedState _ in
          conj (proj1 H) (proj1 (proj2 H))).
  rewrite Heq. left. reflexivity.
Defined.

(** ** The manifest *)

Lemma isDigit_digitChar d : isDigit (digitChar d) = true.
Proof.
  unfold digitChar.
  assert (Z.to_nat (d mod 10) < 10) as H
    by (pose proof (Z.mod_pos_bound d 10); lia).
  revert H. generalize (Z.to_nat (d mod 10)). intros n H.
  do 10 (destruct n as [|n]; [reflexivity|]). lia.
Qed.

Ltac abstract_digits :=
  repeat match goal with
  | |- context [digitChar ?x] =>
      generalize (isDigit_digitChar x); generalize (digitChar x); intros ? ?
  end.

Ltac use_digits :=
  repeat match goal with
  | H : isDigit _ = true |- _ => rewrite H; clear H
  end.

(** [toISOString] always yields the ISO-8601 layout. *)
Lemma toISOString_layout t : isISO8601 (toISOString t) = true.
Proof.
  unfold toISOString. destruct (civilFromDays (t / msPerDay)) as [[y m] d].
  unfold yearString, isISO8601.
  destruct ((0 <=? y)%Z && (y <=? 9999)%Z); [|destruct (y <? 0)%Z];
    cbv [padDigits String.append]; abstract_digits.
  - apply orb_true_iff. left. apply orb_true_iff. left.
    cbn -[isDigit]. use_digits. reflexivity.
  - apply orb_true_iff. right.
    cbn -[isDigit]. use_digits. reflexivity.
  - apply orb_true_iff. left. apply orb_true_iff. right.
    cbn -[isDigit]. use_digits. reflexivity.
Qed.

(** *** Serialized values read back

    [parseJSON] gives back every value [JSON_stringify] was given. *)

(** Appending strings. *)

Lemma append_cons c (a b : string) : String c a +:+ b = String c (a +:+ b).
Proof. reflexivity. Qed.

Lemma append_nil_l (a : string) : "" +:+ a = a.
Proof. reflexivity. Qed.

Lemma append_nil_r (a : string) : a +:+ "" = a.
Proof. induction a as [|c a IH]; [done|]. by rewrite append_cons, IH. Qed.

Lemma append_assoc (a b c : string) : (a +:+ b) +:+ c = a +:+ (b +:+ c).
Proof. induction a as [|x a IH]; [done|]. by rewrite !append_cons, IH. Qed.

(** Whitespace. *)

Lemma allWhitespace_append a b :
  allWhitespace a = true -> allWhitespace b = true ->
  allWhitespace (a +:+ b) = true.
Proof.
  induction a as [|c a IH]; [done|]. rewrite append_cons. simpl.
  intros [Hc Ha]%andb_true_iff Hb. by rewrite Hc, IH.
Qed.

Lemma skipWhitespace_append w s :
  allWhitespace w = true -> skipWhitespace (w +:+ s) = skipWhitespace s.
Proof.
  induction w as [|c w IH]; [done|]. rewrite append_cons. simpl.
  intros [Hc Hw]%andb_true_iff. by rewrite Hc, IH.
Qed.

Lemma skipWhitespace_visible c s :
  isWhitespace c = false -> skipWhitespace (String c s) = String c s.
Proof. intros H. simpl. by rewrite H. Qed.

(** Numbers. *)

Lemma pretty_N_go_append x s r :
  pretty_N_go x s +:+ r = pretty_N_go x (s +:+ r).
Proof.
  revert s. induction (N.lt_wf_0 x) as [x _ IH]; intros s.
  assert (x = 0 \/ 0 < x)%N as [->|Hx] by lia.
  - by rewrite !pretty_N_go_0.
  - rewrite (pretty_N_go_step x s), (pretty_N_go_step x (s +:+ r)) by done.
    rewrite IH by (by apply N.div_lt). reflexivity.
Qed.

Lemma digit_of_pretty_N_char m :
  (m < 10)%N ->
  isDigit (pretty_N_char m) = true /\ digitValue (pretty_N_char m) = m
  /\ (m <> 0%N -> Ascii.eqb (pretty_N_char m) "0" = false)
  /\ Ascii.eqb (pretty_N_char m) "-" = false.
Proof.
  intros H.
  assert (m = 0 \/ m = 1 \/ m = 2 \/ m = 3 \/ m = 4 \/ m = 5 \/ m = 6 \/ m = 7
          \/ m = 8 \/ m = 9)%N as Hm by lia.
  repeat destruct Hm as [-> | Hm]; try subst m; repeat split; done.
Qed.

(** The digits [pretty_N_go] puts in front of [s] start with a non-zero
    digit and read back as [x]. *)
Lemma parseDigits_pretty_N_go x s :
  (0 < x)%N ->
  exists c tail,
    pretty_N_go x s = String c tail
    /\ isDigit c = true /\ Ascii.eqb c "0" = false /\ Ascii.eqb c "-" = false
    /\ parseDigits (digitValue c) tail = parseDigits x s.
Proof.
  revert s. induction (N.lt_wf_0 x) as [x _ IH]; intros s Hx.
  rewrite pretty_N_go_step by done.
  pose proof (digit_of_pretty_N_char (x `mod` 10)%N) as Hd.
  destruct Hd as (Hd1 & Hd2 & Hd3 & Hd4); [by apply N.mod_lt|].
  destruct (decide (x `div` 10 = 0)%N) as [Hz|Hpos%N.neq_0_lt_0].
  - rewrite Hz, pretty_N_go_0.
    assert (x `mod` 10 = x)%N as Hmod.
    { apply N.mod_small. by apply N.div_small_iff in Hz. }
    exists (pretty_N_char (x `mod` 10)), s.
    split; [done|]. split; [done|].
    split; [apply Hd3; rewrite Hmod; lia|].
    split; [done|]. by rewrite Hd2, Hmod.
  - destruct (IH (x `div` 10)%N (N.div_lt x 10 Hx eq_refl)
                (String (pretty_N_char (x `mod` 10)) s) Hpos)
      as (c & tail & -> & Hc1 & Hc2 & Hc3 & Hc4).
    exists c, tail. split; [done|]. split; [done|]. split; [done|].
    split; [done|]. rewrite Hc4. simpl. rewrite Hd1, Hd2.
    f_equal. rewrite (N.div_mod x 10) at 3 by done. lia.
Qed.

Lemma parseDigits_stop acc s :
  endsNumber s = true -> parseDigits acc s = (acc, s).
Proof.
  destruct s as [|c s]; [done|]. simpl.
  intros H%negb_true_iff. apply orb_false_iff in H as [H _].
  apply orb_false_iff in H as [H _]. apply orb_false_iff in H as [H _].
  by rewrite H.
Qed.

Lemma parseNatural_pretty (n : N) rest :
  endsNumber rest = true ->
  parseNatural (pretty n +:+ rest) = Some (n, rest)
  /\ exists c tail, pretty n +:+ rest = String c tail
       /\ isDigit c = true /\ Ascii.eqb c "-" = false.
Proof.
  intros Hrest. unfold pretty, pretty_N. destruct (decide (n = 0%N)) as [->|Hn].
  - split; [done|]. by exists "0"%char, rest.
  - rewrite pretty_N_go_append, append_nil_l.
    destruct (parseDigits_pretty_N_go n rest) as (c & tail & -> & H1 & H2 & H3 & H4);
      [lia|].
    split; [|by exists c, tail].
    simpl. rewrite H2, H1, H4. by rewrite parseDigits_stop.
Qed.

Lemma isDigit_visible c :
  isDigit c = true ->
  isWhitespace c = false /\ Ascii.eqb c dquote = false
  /\ Ascii.eqb c "[" = false /\ Ascii.eqb c "{" = false
  /\ Ascii.eqb c "]" = false /\ Ascii.eqb c "}" = false.
Proof.
  destruct c as [[] [] [] [] [] [] [] []]; try discriminate; done.
Qed.

(** A printed integer reads back, and starts with a digit or a minus. *)
Lemma parseNumber_pretty (z : Z) rest :
  endsNumber rest = true ->
  parseNumber (pretty z +:+ rest) = Some (z, rest)
  /\ exists c tail, pretty z +:+ rest = String c tail
       /\ (isDigit c = true \/ c = "-"%char).
Proof.
  intros Hrest. destruct z as [|p|p]; unfold pretty, pretty_Z.
  - split; [|by exists "0"%char, rest; auto].
    rewrite append_cons, append_nil_l. unfold parseNumber. simpl.
    by rewrite Hrest.
  - change (pretty p) with (pretty (N.pos p)).
    destruct (parseNatural_pretty (N.pos p) rest Hrest)
      as (Hp & c & tail & Heq & Hc1 & Hc2).
    split; [|exists c, tail; auto].
    unfold parseNumber. rewrite Heq. cbv beta iota. rewrite Hc2.
    cbv beta iota zeta. rewrite <- Heq, Hp. cbv beta iota. by rewrite Hrest.
  - change (pretty p) with (pretty (N.pos p)).
    destruct (parseNatural_pretty (N.pos p) rest Hrest) as (Hp & _).
    rewrite append_assoc. split; [|by exists "-"%char, (pretty (N.pos p) +:+ rest); auto].
    unfold parseNumber. rewrite append_cons, append_nil_l.
    cbv beta iota. change (Ascii.eqb "-" "-") with true. cbv beta iota zeta.
    rewrite Hp. cbv beta iota. by rewrite Hrest.
Qed.

(** String literals. *)

Lemma parseStringBody_escapeChar c rest :
  parseStringBody (escapeChar c +:+ rest) = consChar c (parseStringBody rest).
Proof.
  destruct c as [[] [] [] [] [] [] [] []]; reflexivity.
Qed.

Lemma parseStringBody_escapeString s rest :
  parseStringBody (escapeString s +:+ String dquote rest) = Some (s, rest).
Proof.
  induction s as [|c s IH].
  - rewrite append_nil_l. simpl. reflexivity.
  - change (escapeString (String c s)) with (escapeChar c +:+ escapeString s).
    rewrite append_assoc, parseStringBody_escapeChar, IH. done.
Qed.

Lemma quoteJSON_append s rest :
  quoteJSON s +:+ rest = String dquote (escapeString s +:+ String dquote rest).
Proof.
  unfold quoteJSON. rewrite append_assoc. reflexivity.
Qed.

(** Values. *)

Lemma JSON_nested_ind (P : JSON -> Prop) :
  (forall n, P (JNum n)) ->
  (forall s, P (JStr s)) ->
  (forall items, Forall P items -> P (JArr items)) ->
  (forall members, Forall (fun m => P (snd m)) members -> P (JObj members)) ->
  forall v, P v.
Proof.
  intros Hnum Hstr Harr Hobj. fix IH 1. intros [n|s|items|members].
  - apply Hnum.
  - apply Hstr.
  - apply Harr. induction items as [|x items IHitems]; constructor; [apply IH|exact IHitems].
  - apply Hobj. induction members as [|[k x] members IHm]; constructor; [apply IH|exact IHm].
Qed.

Lemma parseValue_skip fuel w s :
  allWhitespace w = true -> parseValue fuel (w +:+ s) = parseValue fuel s.
Proof.
  intros Hw. destruct fuel as [|fuel]; [done|].
  simpl. by rewrite (skipWhitespace_append w s Hw).
Qed.

Lemma parseValue_space fuel s :
  parseValue fuel (String " " s) = parseValue fuel s.
Proof. apply (parseValue_skip fuel " " s eq_refl). Qed.

Lemma parseElements_skip fuel w s :
  allWhitespace w = true -> parseElements fuel (w +:+ s) = parseElements fuel s.
Proof.
  intros Hw. destruct fuel as [|fuel]; [done|].
  simpl. by rewrite (parseValue_skip fuel w s Hw).
Qed.

Lemma parseMembers_skip fuel w s :
  allWhitespace w = true -> parseMembers fuel (w +:+ s) = parseMembers fuel s.
Proof.
  intros Hw. destruct fuel as [|fuel]; [done|].
  simpl. by rewrite (skipWhitespace_append w s Hw).
Qed.

Lemma serializeJSON_arr gap indent x xs :
  serializeJSON gap indent (JArr (x :: xs))
  = "[" +:+ newline +:+ (indent +:+ gap)
    +:+ String.concat ("," +:+ newline +:+ (indent +:+ gap))
          (List.map (serializeJSON gap (indent +:+ gap)) (x :: xs))
    +:+ newline +:+ indent +:+ "]".
Proof. reflexivity. Qed.

Lemma serializeJSON_obj gap indent m ms :
  serializeJSON gap indent (JObj (m :: ms))
  = "{" +:+ newline +:+ (indent +:+ gap)
    +:+ String.concat ("," +:+ newline +:+ (indent +:+ gap))
          (List.map
             (fun m => quoteJSON (fst m) +:+ ": "
                       +:+ serializeJSON gap (indent +:+ gap) (snd m))
             (m :: ms))
    +:+ newline +:+ indent +:+ "}".
Proof. reflexivity. Qed.

Lemma concat_map_cons2 {A} sep (f : A -> string) a b l :
  String.concat sep (List.map f (a :: b :: l))
  = f a +:+ sep +:+ String.concat sep (List.map f (b :: l)).
Proof. reflexivity. Qed.

(** The text of a value starts with a visible character that closes
    neither an array nor an object. *)
Lemma serializeJSON_visible gap indent v rest :
  exists c tail,
    serializeJSON gap indent v +:+ rest = String c tail
    /\ isWhitespace c = false
    /\ Ascii.eqb c "]" = false /\ Ascii.eqb c "}" = false.
Proof.
  destruct v as [n|s|[|x xs]|[|m ms]].
  - change (serializeJSON gap indent (JNum n)) with (pretty n).
    destruct (parseNumber_pretty n "" eq_refl) as (_ & c & tail & Heq & Hc).
    rewrite append_nil_r in Heq. rewrite Heq.
    exists c, (tail +:+ rest). split; [done|].
    destruct Hc as [Hc | ->]; [|done].
    by destruct (isDigit_visible c Hc) as (? & _ & _ & _ & ? & ?).
  - change (serializeJSON gap indent (JStr s)) with (quoteJSON s).
    rewrite quoteJSON_append. by eexists _, _.
  - by exists "["%char, (String "]" rest).
  - rewrite serializeJSON_arr. by eexists _, _.
  - by exists "{"%char, (String "}" rest).
  - rewrite serializeJSON_obj. by eexists _, _.
Qed.

Lemma parseElements_last fuel s v rest remaining :
  parseValue fuel s = Some (v, rest) ->
  skipWhitespace rest = String "]" remaining ->
  parseElements (S fuel) s = Some ([v], remaining).
Proof. intros H1 H2. simpl. rewrite H1, H2. reflexivity. Qed.

Lemma parseElements_more fuel s v rest remaining vs remaining' :
  parseValue fuel s = Some (v, rest) ->
  skipWhitespace rest = String "," remaining ->
  parseElements fuel remaining = Some (vs, remaining') ->
  parseElements (S fuel) s = Some (v :: vs, remaining').
Proof. intros H1 H2 H3. simpl. rewrite H1, H2. simpl. by rewrite H3. Qed.

Lemma parseMembers_last fuel s body k rest1 rest2 v rest3 remaining :
  skipWhitespace s = String dquote body ->
  parseStringBody body = Some (k, rest1) ->
  skipWhitespace rest1 = String ":" rest2 ->
  parseValue fuel rest2 = Some (v, rest3) ->
  skipWhitespace rest3 = String "}" remaining ->
  parseMembers (S fuel) s = Some ([(k, v)], remaining).
Proof.
  intros H1 H2 H3 H4 H5. simpl. rewrite H1. simpl. rewrite H2, H3. simpl.
  rewrite H4, H5. reflexivity.
Qed.

Lemma parseMembers_more fuel s body k rest1 rest2 v rest3 remaining ms
    remaining' :
  skipWhitespace s = String dquote body ->
  parseStringBody body = Some (k, rest1) ->
  skipWhitespace rest1 = String ":" rest2 ->
  parseValue fuel rest2 = Some (v, rest3) ->
  skipWhitespace rest3 = String "," remaining ->
  parseMembers fuel remaining = Some (ms, remaining') ->
  parseMembers (S fuel) s = Some ((k, v) :: ms, remaining').
Proof.
  intros H1 H2 H3 H4 H5 H6. simpl. rewrite H1. simpl. rewrite H2, H3. simpl.
  rewrite H4, H5. simpl. by rewrite H6.
Qed.

Lemma parseValue_array fuel s rest c t items remaining :
  skipWhitespace s = String "[" rest ->
  skipWhitespace rest = String c t ->
  Ascii.eqb c "]" = false ->
  parseElements fuel rest = Some (items, remaining) ->
  parseValue (S fuel) s = Some (JArr items, remaining).
Proof.
  intros H1 H2 H3 H4. simpl. rewrite H1. simpl. rewrite H2, H3, H4. done.
Qed.

Lemma parseValue_object fuel s rest c t members remaining :
  skipWhitespace s = String "{" rest ->
  skipWhitespace rest = String c t ->
  Ascii.eqb c "}" = false ->
  parseMembers fuel rest = Some (members, remaining) ->
  parseValue (S fuel) s = Some (JObj members, remaining).
Proof.
  intros H1 H2 H3 H4. simpl. rewrite H1. simpl. rewrite H2, H3, H4. done.
Qed.

Section read_back.
Variable gap : string.
Hypothesis gap_whitespace : allWhitespace gap = true.

Lemma readsBack_num n : readsBack gap (JNum n).
Proof.
  intros indent rest fuel _ Hfuel Hrest.
  change (serializeJSON gap indent (JNum n)) with (pretty n).
  destruct (parseNumber_pretty n rest Hrest) as (Hp & c & tail & Heq & Hc).
  assert (isWhitespace c = false /\ Ascii.eqb c dquote = false
          /\ Ascii.eqb c "[" = false /\ Ascii.eqb c "{" = false)
    as (H1 & H2 & H3 & H4).
  { destruct Hc as [Hc | ->]; [|done].
    by destruct (isDigit_visible c Hc) as (? & ? & ? & ? & _). }
  destruct fuel as [|fuel]; [simpl in Hfuel; lia|].
  simpl. rewrite Heq. simpl. rewrite H1, H2, H3, H4, <- Heq, Hp. done.
Qed.

Lemma readsBack_str s : readsBack gap (JStr s).
Proof.
  intros indent rest fuel _ Hfuel _.
  change (serializeJSON gap indent (JStr s)) with (quoteJSON s).
  rewrite quoteJSON_append.
  destruct fuel as [|fuel]; [simpl in Hfuel; lia|].
  simpl. by rewrite parseStringBody_escapeString.
Qed.

Lemma parseElements_concat inner indent rest xs fuel :
  allWhitespace inner = true -> allWhitespace indent = true ->
  xs <> [] -> Forall (readsBack gap) xs ->
  list_sum (List.map (fun x => S (cost x)) xs) <= fuel ->
  parseElements fuel
    (String.concat ("," +:+ newline +:+ inner)
       (List.map (serializeJSON gap inner) xs)
     +:+ newline +:+ indent +:+ String "]" rest)
  = Some (xs, rest).
Proof.
  intros Hinner Hindent Hne Hall. revert fuel.
  induction Hall as [|x xs Hx Hxs IH]; [done|]. intros fuel Hfuel.
  simpl in Hfuel. destruct fuel as [|fuel]; [lia|].
  destruct xs as [|y ys].
  - simpl String.concat.
    pose proof (Hx inner (newline +:+ indent +:+ String "]" rest) fuel Hinner)
      as Hp.
    eapply parseElements_last; [apply Hp; [lia|done]|].
    rewrite <- append_assoc, skipWhitespace_append; [done|].
    by apply allWhitespace_append.
  - rewrite concat_map_cons2, !append_assoc.
    pose proof (Hx inner
                ("," +:+ newline +:+ inner
                 +:+ String.concat ("," +:+ newline +:+ inner)
                       (List.map (serializeJSON gap inner) (y :: ys))
                 +:+ newline +:+ indent +:+ String "]" rest)
                fuel Hinner) as Hp.
    eapply parseElements_more; [apply Hp; [lia|done]|reflexivity|].
    rewrite <- (append_assoc newline inner), parseElements_skip
      by (by apply allWhitespace_append).
    apply IH; [done|]. simpl. simpl in Hfuel. lia.
Qed.

Lemma parseMembers_concat inner indent rest ms fuel :
  allWhitespace inner = true -> allWhitespace indent = true ->
  ms <> [] -> Forall (fun m => readsBack gap (snd m)) ms ->
  list_sum (List.map (fun m => S (cost (snd m))) ms) <= fuel ->
  parseMembers fuel
    (String.concat ("," +:+ newline +:+ inner)
       (List.map
          (fun m => quoteJSON (fst m) +:+ ": "
                    +:+ serializeJSON gap inner (snd m)) ms)
     +:+ newline +:+ indent +:+ String "}" rest)
  = Some (ms, rest).
Proof.
  intros Hinner Hindent Hne Hall. revert fuel.
  induction Hall as [|[k x] ms Hx Hms IH]; [done|]. intros fuel Hfuel.
  simpl in Hfuel, Hx. destruct fuel as [|fuel]; [lia|].
  destruct ms as [|m' ms'].
  - simpl String.concat.
    rewrite !append_assoc, quoteJSON_append.
    pose proof (Hx inner (newline +:+ indent +:+ String "}" rest) fuel Hinner)
      as Hp.
    eapply parseMembers_last.
    + reflexivity.
    + apply parseStringBody_escapeString.
    + reflexivity.
    + rewrite parseValue_space. apply Hp; [lia|done].
    + rewrite <- append_assoc, skipWhitespace_append; [done|].
      by apply allWhitespace_append.
  - rewrite concat_map_cons2. simpl fst. simpl snd.
    rewrite !append_assoc, quoteJSON_append.
    match goal with
    | |- parseMembers _ (String _ (_ +:+ String _ (_ +:+ _ +:+ ?tail))) = _ =>
        pose proof (Hx inner tail fuel Hinner) as Hp
    end.
    eapply parseMembers_more.
    + reflexivity.
    + apply parseStringBody_escapeString.
    + reflexivity.
    + rewrite parseValue_space. apply Hp; [lia|done].
    + reflexivity.
    + rewrite <- (append_assoc newline inner), parseMembers_skip
        by (by apply allWhitespace_append).
      apply IH; [done|]. simpl. simpl in Hfuel. lia.
Qed.

Theorem serializeJSON_readsBack v : readsBack gap v.
Proof.
  induction v as [n|s|items IH|members IH] using JSON_nested_ind.
  - apply readsBack_num.
  - apply readsBack_str.
  - intros indent rest fuel Hindent Hfuel Hrest.
    destruct fuel as [|fuel]; [simpl in Hfuel; lia|].
    destruct items as [|x xs]; [reflexivity|].
    assert (allWhitespace (indent +:+ gap) = true) as Hinner
      by (by apply allWhitespace_append).
    rewrite serializeJSON_arr. set (inner := indent +:+ gap) in *.
    rewrite !append_assoc.
    match goal with
    | |- parseValue _ (_ +:+ _ +:+ _ +:+ ?body) = _ =>
        assert (exists c t, body = String c t /\ isWhitespace c = false
                            /\ Ascii.eqb c "]" = false) as (c & t & Hb & Hw & Hc)
    end.
    { destruct xs as [|y ys].
      - simpl String.concat.
        destruct (serializeJSON_visible gap inner x
                    (newline +:+ indent +:+ "]" +:+ rest))
          as (c & t & Heq & Hw & Hc & _).
        exists c, t. by rewrite Heq.
      - rewrite concat_map_cons2, !append_assoc.
        match goal with
        | |- exists _ _, _ +:+ ?tail = _ /\ _ =>
            destruct (serializeJSON_visible gap inner x tail)
              as (c & t & Heq & Hw & Hc & _)
        end.
        exists c, t. by rewrite Heq. }
    eapply parseValue_array.
    + reflexivity.
    + rewrite <- (append_assoc newline), skipWhitespace_append
        by (by apply allWhitespace_append).
      rewrite Hb. by apply skipWhitespace_visible.
    + exact Hc.
    + rewrite <- (append_assoc newline), parseElements_skip
        by (by apply allWhitespace_append).
      apply parseElements_concat; try done.
      simpl in Hfuel. simpl. lia.
  - intros indent rest fuel Hindent Hfuel Hrest.
    destruct fuel as [|fuel]; [simpl in Hfuel; lia|].
    destruct members as [|[k x] ms]; [reflexivity|].
    assert (allWhitespace (indent +:+ gap) = true) as Hinner
      by (by apply allWhitespace_append).
    rewrite serializeJSON_obj. set (inner := indent +:+ gap) in *.
    rewrite !append_assoc.
    match goal with
    | |- parseValue _ (_ +:+ _ +:+ _ +:+ ?body) = _ =>
        assert (exists t, body = String dquote t) as (t & Hb)
    end.
    { destruct ms as [|m' ms'].
      - simpl String.concat. rewrite !append_assoc, quoteJSON_append.
        by eexists.
      - rewrite concat_map_cons2. simpl fst.
        rewrite !append_assoc, quoteJSON_append. by eexists. }
    eapply (parseValue_object _ _ _ dquote t).
    + reflexivity.
    + rewrite <- (append_assoc newline), skipWhitespace_append
        by (by apply allWhitespace_append).
      rewrite Hb. by apply skipWhitespace_visible.
    + reflexivity.
    + rewrite <- (append_assoc newline), parseMembers_skip
        by (by apply allWhitespace_append).
      apply parseMembers_concat; try done.
      simpl in Hfuel. simpl. lia.
Qed.

End read_back.

(** The text of a value is at least as long as the fuel its parse needs. *)
Lemma concat_cost {A} (f : A -> string) (c : A -> nat) sep l :
  sep <> "" ->
  Forall (fun x => c x <= String.length (f x)) l ->
  list_sum (List.map (fun x => S (c x)) l)
  <= String.length (String.concat sep (List.map f l)) + 1.
Proof.
  intros Hsep Hall. induction Hall as [|x xs Hx Hxs IH]; [simpl; lia|].
  destruct xs as [|y ys].
  - simpl. rewrite Nat.add_0_r. lia.
  - rewrite concat_map_cons2, !length_append.
    change (list_sum (List.map (fun x => S (c x)) (x :: y :: ys)))
      with (S (c x) + list_sum (List.map (fun x => S (c x)) (y :: ys))).
    assert (1 <= String.length sep) by (destruct sep; [done|simpl; lia]).
    lia.
Qed.

Lemma cost_le_length gap indent v :
  cost v <= String.length (serializeJSON gap indent v).
Proof.
  revert indent.
  induction v as [n|s|items IH|members IH] using JSON_nested_ind; intros indent.
  - destruct (serializeJSON_visible gap indent (JNum n) "") as (c & t & H & _).
    rewrite append_nil_r in H. rewrite H. simpl. lia.
  - destruct (serializeJSON_visible gap indent (JStr s) "") as (c & t & H & _).
    rewrite append_nil_r in H. rewrite H. simpl. lia.
  - destruct items as [|x xs]; [simpl; lia|].
    rewrite serializeJSON_arr. set (inner := indent +:+ gap).
    rewrite !length_append.
    pose proof (concat_cost (serializeJSON gap inner) cost
                  ("," +:+ newline +:+ inner) (x :: xs)) as H.
    unfold cost at 1. fold cost.
    match goal with
    | |- context [String.concat ?sep ?l] => set (body := String.concat sep l) in *
    end.
    simpl String.length.
    assert (Forall (fun x => cost x <= String.length (serializeJSON gap inner x)) (x :: xs)) as Hall.
    { eapply Forall_impl; [exact IH|]. intros y Hy. apply Hy. }
    specialize (H ltac:(done) Hall). fold body in H. lia.
  - destruct members as [|[k x] ms]; [simpl; lia|].
    rewrite serializeJSON_obj. set (inner := indent +:+ gap).
    rewrite !length_append.
    pose proof (concat_cost
                  (fun m => quoteJSON (fst m) +:+ ": " +:+ serializeJSON gap inner (snd m))
                  (fun m => cost (snd m))
                  ("," +:+ newline +:+ inner) ((k, x) :: ms)) as H.
    unfold cost at 1. fold cost.
    match goal with
    | |- context [String.concat ?sep ?l] => set (body := String.concat sep l) in *
    end.
    simpl String.length.
    assert (Forall (fun m : string * JSON => cost (snd m)
              <= String.length (quoteJSON (fst m) +:+ ": " +:+ serializeJSON gap inner (snd m)))
              ((k, x) :: ms)) as Hall.
    { eapply Forall_impl; [exact IH|]. intros y Hy.
      rewrite !length_append. specialize (Hy inner). lia. }
    specialize (H ltac:(done) Hall). fold body in H. lia.
Qed.

(** [JSON.parse(JSON.stringify(v, null, 2))] gives [v] back. *)
Theorem parseJSON_stringify v : parseJSON (JSON_stringify v) = Some v.
Proof.
  unfold parseJSON, JSON_stringify.
  pose proof (serializeJSON_readsBack "  " eq_refl v "" ""
                (String.length (serializeJSON "  " "" v)) eq_refl
                (cost_le_length _ _ _) eq_refl) as H.
  rewrite append_nil_r in H. rewrite H. reflexivity.
Qed.

Lemma exportSet_selected fs :
  List.filter selected fs <> [] -> exportSet fs = List.filter selected fs.
Proof. unfold exportSet. by destruct (List.filter selected fs). Qed.

(** C6: whenever archive export saves an archive, the entry
    [frames_info.json] of the archive is a JSON text, and the value it
    denotes is an array with one object per frame of the export set, in
    the order of the export set; the object of a frame has exactly the
    members [id] (the frame's integer id), [fileName] (its file name),
    [eyeSide] (the string OD or OE of its tag) and [takenAt] (its
    capture time as an ISO-8601 string), in this order. *)
Theorem manifest_lists_export_set (s : State) (zip : gmap string ZipObject)
    (name : string) :
  In (SaveAs zip name) (downloadSelectedImages s) ->
  exists (text : string) (items : list JSON),
    zip !! "frames_info.json" = Some (ZFile text false)
    /\ parseJSON text = Some (JArr items)
    /\ length items = length (exportSet (frames s))
    /\ forall (k : nat) (f : Frame),
         exportSet (frames s) !! k = Some f ->
         exists code stamp,
           items !! k
           = Some (JObj [("id", JNum (Z.of_nat (id f)));
                         ("fileName", JStr (fileName f));
                         ("eyeSide", JStr code);
                         ("takenAt", JStr stamp)])
           /\ code = eyeSideCode (eyeSide f)
           /\ (code = "OD" \/ code = "OE")
           /\ stamp = toISOString (takenAt f)
           /\ isISO8601 stamp = true.
Proof.
  intros (Hne & _ & ->)%downloadSelectedImages_SaveAs.
  rewrite (exportSet_selected _ Hne).
  exists (manifestText (List.filter selected (frames s))),
         (List.map frameInfo (List.filter selected (frames s))).
  split; [apply lookup_insert_eq|]. split; [apply parseJSON_stringify|].
  split; [apply length_map|].
  intros k f Hk. exists (eyeSideCode (eyeSide f)), (toISOString (takenAt f)).
  split; [|split; [done|split; [|split; [done|]]]].
  - change (List.map frameInfo ?l) with (frameInfo <$> l).
    rewrite list_lookup_fmap, Hk. reflexivity.
  - destruct (eyeSide f); auto.
  - apply toISOString_layout.
Qed.

Lemma manifest_lists_export_set_witness :
  exists zip,
    In (SaveAs zip "frames_selecionados.zip")
      (downloadSelectedImages bothSidesState)
    /\ exists (text : string) (items : list JSON),
         zip !! "frames_info.json" = Some (ZFile text false)
         /\ parseJSON text = Some (JArr items)
         /\ items !! 1%nat
            = Some (JObj [("id", JNum 1);
                          ("fileName", JStr "frame_1_OE.png");
                          ("eyeSide", JStr "OE");
                          ("takenAt", JStr "2023-11-14T22:13:20.623Z")]).
Proof.
  assert (List.filter selected (frames bothSidesState) <> []) as Hne
    by (vm_compute; discriminate).
  pose proof (downloadSelectedImages_archive bothSidesState Hne) as Heq.
  eexists. split; [rewrite Heq; left; reflexivity|].
  edestruct (manifest_lists_export_set bothSidesState)
    as (text & items & H1 & H2 & _ & H4);
    [rewrite Heq; left; reflexivity|].
  exists text, items. split; [exact H1|]. split; [exact H2|].
  destruct (H4 1%nat (mkFrame 1 "data:image/png;base64,BBBB" "frame_1_OE.png"
                        1700000000623 true OE))
    as (code & stamp & -> & -> & _ & -> & _);
    [vm_compute; reflexivity|].
  vm_compute. reflexivity.
Defined.

(** The manifest of two selected frames, read back. *)
Example parseJSON_manifest :
  parseJSON (manifestText (List.filter selected (frames bothSidesState)))
  = Some (JArr [JObj [("id", JNum 0);
                      ("fileName", JStr "frame_0_OD.png");
                      ("eyeSide", JStr "OD");
                      ("takenAt", JStr "2023-11-14T22:13:20.123Z")];
                JObj [("id", JNum 1);
                      ("fileName", JStr "frame_1_OE.png");
                      ("eyeSide", JStr "OE");
                      ("takenAt", JStr "2023-11-14T22:13:20.623Z")]]).
Proof. vm_compute. reflexivity. Qed.

Example parseJSON_compact :
  parseJSON "[1, [-2, 30], {}]"
  = Some (JArr [JNum 1; JArr [JNum (-2); JNum 30]; JObj []]).
Proof. vm_compute. reflexivity. Qed.

Example parseJSON_rejects_empty_text : parseJSON "" = None.
Proof. reflexivity. Qed.

Example parseJSON_rejects_trailing_comma : parseJSON "[1,]" = None.
Proof. reflexivity. Qed.

Example parseJSON_rejects_leading_zero : parseJSON "[01]" = None.
Proof. reflexivity. Qed.

Example parseJSON_rejects_missing_comma : parseJSON "[1 2]" = None.
Proof. reflexivity. Qed.

Example parseJSON_rejects_open_array : parseJSON "[1, 2" = None.
Proof. reflexivity. Qed.

Example JSON_stringify_empty : JSON_stringify (JArr []) = "[]".
Proof. reflexivity. Qed.

Example JSON_stringify_numbers :
  JSON_stringify (JArr [JNum 1; JNum 20])
  = "[" +:+ newline +:+ "  1," +:+ newline +:+ "  20" +:+ newline +:+ "]".
Proof. vm_compute. reflexivity. Qed.

Example toISOString_epoch : toISOString 0 = "1970-01-01T00:00:00.000Z".
Proof. vm_compute. reflexivity. Qed.

Example toISOString_leap_day :
  toISOString 1709251199999 = "2024-02-29T23:59:59.999Z".
Proof. vm_compute. reflexivity. Qed.

Example toISOString_before_epoch :
  toISOString (-1) = "1969-12-31T23:59:59.999Z".
Proof. vm_compute. reflexivity. Qed.

Example toISOString_year_10000 :
  toISOString 253402300800000 = "+010000-01-01T00:00:00.000Z".
Proof. vm_compute. reflexivity. Qed.

Example split_dataURL :
  split ","%char "data:image/png;base64,AAAA" = ["data:image/png;base64"; "AAAA"].
Proof. reflexivity. Qed.

(** * The rest of the component *)

(** ** Stopping *)

Lemma stopExtracting_keeps s :
  frames (stopExtracting s) = frames s
  /\ globalFrameId (stopExtracting s) = globalFrameId s
  /\ eyeSideHook (stopExtracting s) = eyeSideHook s.
Proof.
  unfold stopExtracting.
  destruct (frameIntervalRef s) as [t|]; [destruct (truthy t)|]; done.
Qed.

(** X1: [stopExtracting] is idempotent in every state, whether or not an
    interval is recorded: a second call changes nothing more; and it
    never touches the store, the id counter or the eye-side hook. *)
Theorem stopExtracting_idempotent (s : State) :
  stopExtracting (stopExtracting s) = stopExtracting s
  /\ isExtracting (stopExtracting s) = false
  /\ frames (stopExtracting s) = frames s
  /\ globalFrameId (stopExtracting s) = globalFrameId s
  /\ eyeSideHook (stopExtracting s) = eyeSideHook s.
Proof.
  unfold stopExtracting.
  destruct (frameIntervalRef s) as [t|] eqn:Hr; [destruct (truthy t) eqn:Ht|];
    simpl; rewrite ?Hr, ?Ht; simpl; auto.
Qed.

(** X2: in a reachable state where capture is not running, calling
    [stopExtracting] is a no-op: the state is returned as it was. *)
Theorem stopExtracting_when_idle (s : State) :
  reachable s -> isExtracting s = false -> stopExtracting s = s.
Proof.
  intros Hr Hx. destruct (reachable_timerInv s Hr) as [_ H].
  unfold stopExtracting.
  destruct (frameIntervalRef s) as [t|] eqn:Href.
  - destruct H as (_ & _ & H). congruence.
  - unfold setIsExtracting. rewrite <- Hx. by destruct s.
Qed.

Lemma stopExtracting_when_idle_witness :
  reachable mounted /\ isExtracting mounted = false
  /\ stopExtracting mounted = mounted.
Proof.
  split; [exact reachable_mounted|]. split; [reflexivity|].
  exact (stopExtracting_when_idle mounted reachable_mounted eq_refl).
Defined.

(** ** The page invariant *)

Ltac solve_pageInv Hrun :=
  unfold pageInv; simpl; repeat split; try done;
  try match goal with
      | Hyp : _ \/ _ |- _ => apply Hrun in Hyp; tauto
      end.

Lemma step_pageInv s e : timerInv s -> pageInv s -> pageInv (fst (step s e)).
Proof.
  intros Ht (Hv & Hc & Hx & Hsrc & Hrun).
  destruct e as [file| | | | |i|t v]; simpl.
  - destruct file as [f|]; simpl; [|solve_pageInv Hrun].
    rewrite Hv. unfold pageInv. simpl. repeat split; try done.
    all: match goal with
         | Hyp : _ \/ _ |- _ => by apply Hrun in Hyp as [_ ?]
         end.
  - destruct (isSome (videoFile s) && negb (isExtracting s)) eqn:Hg;
      [|solve_pageInv Hrun].
    apply andb_true_iff in Hg as [Hf _].
    unfold extractFrames. rewrite Hv, Hc, Hx. unfold pageInv. simpl.
    repeat split; try done. intros Hnone. by rewrite Hnone in Hf.
  - destruct (isSome (videoFile s) && isExtracting s) eqn:Hg;
      [|solve_pageInv Hrun].
    apply andb_true_iff in Hg as [_ Hg].
    destruct (Hrun (or_introl Hg)) as [Hf Hm].
    unfold stopExtracting.
    destruct (frameIntervalRef s) as [t|]; [destruct (truthy t)|];
      solve_pageInv Hrun.
  - destruct (isSome (videoFile s) && negb _); solve_pageInv Hrun.
  - destruct (isSome (videoFile s)); solve_pageInv Hrun.
  - destruct (existsb _ _); solve_pageInv Hrun.
  - destruct (timers s !! t) as [eye|] eqn:Hlook; [|solve_pageInv Hrun].
    assert (isExtracting s = true) as Hrunning.
    { destruct Ht as [_ Ht]. destruct (frameIntervalRef s).
      - by destruct Ht as (_ & _ & ?).
      - destruct Ht as [Ht _]. by rewrite Ht, lookup_empty in Hlook. }
    destruct (Hrun (or_introl Hrunning)) as [Hf Hm].
    unfold intervalCallback. destruct (paused v || ended v).
    + unfold stopExtracting.
      destruct (frameIntervalRef s) as [t'|]; [destruct (truthy t')|];
        solve_pageInv Hrun.
    + solve_pageInv Hrun.
Qed.

Lemma reachable_pageInv s : reachable s -> pageInv s.
Proof.
  intros Hr. pattern s. revert s Hr. apply reachable_ind.
  - repeat split; simpl; try done.
    all: match goal with
         | Hyp : _ \/ _ |- _ => simpl in Hyp; destruct Hyp; [done | lia]
         end.
  - intros s e Hr. apply step_pageInv. by apply reachable_timerInv.
Qed.

(** X3: in every reachable state the video element shows the chosen
    file, and whenever capture runs or a frame was ever captured, a
    video file is chosen and the video is muted. *)
Theorem capture_needs_chosen_muted_video (s : State) :
  reachable s ->
  videoSrc s = videoFile s
  /\ (isExtracting s = true \/ 0 < globalFrameId s ->
      videoFile s <> None /\ videoMuted s = true)
  /\ (frames s <> [] -> videoFile s <> None /\ videoMuted s = true).
Proof.
  intros Hr. destruct (reachable_pageInv s Hr) as (_ & _ & _ & Hsrc & Hrun).
  split; [exact Hsrc|]. split; [exact Hrun|].
  intros Hne. apply Hrun. right.
  destruct (reachable_framesInv s Hr) as (_ & _ & Hlt).
  destruct (frames s) as [|f fs]; [done|].
  apply Forall_cons in Hlt as [Hf _]. lia.
Qed.

Lemma capture_needs_chosen_muted_video_witness :
  reachable twoFramesState
  /\ frames twoFramesState <> []
  /\ videoFile twoFramesState <> None
  /\ videoMuted twoFramesState = true.
Proof.
  assert (reachable twoFramesState) as Hr
    by (apply reachable_run; exists [Upload (Some demoFile); ClickStart];
        reflexivity).
  assert (frames twoFramesState <> []) as Hne by (vm_compute; discriminate).
  split; [exact Hr|]. split; [exact Hne|].
  exact (proj2 (proj2 (capture_needs_chosen_muted_video twoFramesState Hr)) Hne).
Defined.

(** ** Starting *)

(** X4: [extractFrames] does nothing at all when the video element, the
    canvas or its 2d context is missing (same state, no playback asked),
    and otherwise always changes the state: it leaves the state as it
    was exactly when one of the three is missing. *)
Theorem extractFrames_needs_elements (s : State) :
  (videoRef s && canvasRef s && context2d s = false ->
   extractFrames s = (s, []))
  /\ (fst (extractFrames s) = s ->
      videoRef s && canvasRef s && context2d s = false).
Proof.
  unfold extractFrames.
  destruct (videoRef s), (canvasRef s), (context2d s); simpl; split; try done.
  intros H. apply (f_equal nextTimer) in H. simpl in H. lia.
Qed.

Lemma extractFrames_ready s :
  videoRef s = true -> canvasRef s = true -> context2d s = true ->
  extractFrames s
  = (set_frameIntervalRef (Some (nextTimer s))
       (snd (setInterval (eyeSideHook s)
               (set_videoMuted true (setIsExtracting true s)))),
     [VideoPlay]).
Proof.
  intros H1 H2 H3. unfold extractFrames. rewrite H1, H2, H3. reflexivity.
Qed.

(** X5: in a reachable state with a video chosen and capture not
    running, a click on start asks the video to play, mutes it, sets
    [isExtracting], and registers exactly one interval, recorded in
    [frameIntervalRef], that carries the eye side shown at the click; the
    store is untouched, and the next tick of that interval on a playing
    video appends a frame with that eye side and the current counter as
    id. *)
Theorem start_click_starts_capture (s : State) (v : VideoSample) :
  reachable s ->
  videoFile s <> None ->
  isExtracting s = false ->
  playing v = true ->
  let s1 := fst (step s ClickStart) in
  let t := nextTimer s in
  snd (step s ClickStart) = [VideoPlay]
  /\ isExtracting s1 = true
  /\ videoMuted s1 = true
  /\ frameIntervalRef s1 = Some t
  /\ timers s1 = {[t := eyeSideHook s]}
  /\ frames s1 = frames s
  /\ frames (fst (step s1 (Tick t v)))
     = frames s ++ [capturedFrame (globalFrameId s) (eyeSideHook s) v].
Proof.
  intros Hr Hf Hx Hv s1 t.
  destruct (reachable_pageInv s Hr) as (Hvr & Hcr & Hcx & _).
  destruct (reachable_timerInv s Hr) as [_ Ht].
  assert (timers s = ∅) as Hempty.
  { destruct (frameIntervalRef s); [|tauto].
    destruct Ht as (_ & _ & Ht). congruence. }
  assert (step s ClickStart
          = (set_frameIntervalRef (Some t)
               (snd (setInterval (eyeSideHook s)
                       (set_videoMuted true (setIsExtracting true s)))),
             [VideoPlay])) as Hstep.
  { unfold step. destruct (videoFile s); [|done]. rewrite Hx.
    cbn [isSome negb andb]. by apply extractFrames_ready. }
  unfold s1. rewrite Hstep. simpl. rewrite Hempty, insert_empty.
  repeat split; try done.
  rewrite lookup_singleton_eq. unfold intervalCallback.
  unfold playing in Hv. apply negb_true_iff in Hv. rewrite Hv. reflexivity.
Qed.

Lemma start_click_starts_capture_witness :
  reachable restartedState
  /\ map_to_list (timers restartedState) = [(2, OE)]
  /\ List.map eyeSide (frames (fst (step restartedState (Tick 2 sample2))))
     = [OD; OD; OE].
Proof.
  assert (reachable (run twoFramesState [ClickStop; ClickEyeSide])) as Hr.
  { apply reachable_run, reachable_run.
    exists [Upload (Some demoFile); ClickStart]. reflexivity. }
  assert (playing sample2 = true) as Hv by reflexivity.
  pose proof (start_click_starts_capture
                (run twoFramesState [ClickStop; ClickEyeSide]) sample2 Hr
                ltac:(vm_compute; discriminate) eq_refl Hv)
    as (_ & _ & _ & _ & Htimers & _ & Hframes).
  split; [|split].
  - unfold restartedState. apply reachable_run, reachable_run.
    exists [Upload (Some demoFile); ClickStart]. reflexivity.
  - change restartedState
      with (fst (step (run twoFramesState [ClickStop; ClickEyeSide]) ClickStart)).
    rewrite Htimers. reflexivity.
  - change restartedState
      with (fst (step (run twoFramesState [ClickStop; ClickEyeSide]) ClickStart)).
    change 2 with (nextTimer (run twoFramesState [ClickStop; ClickEyeSide])) at 1.
    rewrite Hframes. reflexivity.
Defined.

(** ** Before a video is chosen *)

Lemma step_mounted e :
  choosesFile e = false -> step mounted e = (mounted, []).
Proof.
  by destruct e as [[f|]| | | | |i|t v].
Qed.

(** X6: until the file input delivers a file, nothing on the page does
    anything: whatever is clicked (or if the input is cancelled), the
    component stays in its mounted state and asks nothing of the
    browser. *)
Theorem nothing_happens_before_a_video_is_chosen (es : list Event) :
  Forall (fun e => choosesFile e = false) es ->
  run mounted es = mounted /\ runEffects mounted es = [].
Proof.
  induction 1 as [|e es He _ [IH1 IH2]]; [done|].
  rewrite run_cons. simpl. rewrite (step_mounted e He). simpl. auto.
Qed.

Lemma nothing_happens_before_a_video_is_chosen_witness :
  Forall (fun e => choosesFile e = false)
    [ClickStart; Upload None; ClickDownload; ClickEyeSide; ClickFrame 0;
     Tick 1 sample0; ClickStop]
  /\ run mounted
       [ClickStart; Upload None; ClickDownload; ClickEyeSide; ClickFrame 0;
        Tick 1 sample0; ClickStop] = mounted.
Proof.
  assert (Forall (fun e => choosesFile e = false)
            [ClickStart; Upload None; ClickDownload; ClickEyeSide; ClickFrame 0;
             Tick 1 sample0; ClickStop]) as H by (repeat constructor).
  split; [exact H|].
  exact (proj1 (nothing_happens_before_a_video_is_chosen _ H)).
Defined.

(** ** What the page can ask of the browser *)

Lemma linkClicks_no_SaveAs fs : existsb isSaveAs (linkClicks fs) = false.
Proof. induction fs as [|f fs IH]; simpl; [done|exact IH]. Qed.

Lemma linkClicks_no_Alert m fs : existsb (isAlert m) (linkClicks fs) = false.
Proof. induction fs as [|f fs IH]; simpl; [done|exact IH]. Qed.

Lemma countMessage_not_noImage n :
  String.eqb (countMessage n) noImageMessage = false.
Proof.
  apply String.eqb_neq. intros H. apply (f_equal String.length) in H.
  unfold countMessage in H. rewrite length_append in H.
  revert H. generalize (String.length (pretty n)). intros k H.
  unfold noImageMessage in H. cbn [String.length] in H. lia.
Qed.

(** What the download handler returns, by cases on the store. *)
Lemma downloadAllImages_cases s :
  (frames s = [] /\ downloadAllImages s = [Alert noImageMessage])
  \/ (frames s <> [] /\ List.filter selected (frames s) = []
      /\ downloadAllImages s
         = Alert (countMessage (length (frames s))) :: linkClicks (frames s))
  \/ (List.filter selected (frames s) <> []
      /\ downloadAllImages s
         = Alert (countMessage (length (List.filter selected (frames s))))
           :: linkClicks (List.filter selected (frames s))).
Proof.
  unfold downloadAllImages.
  destruct (List.filter selected (frames s)) as [|f sel] eqn:Hsel; simpl.
  - destruct (frames s) as [|f fs]; [left | right; left]; done.
  - right. right. done.
Qed.

Lemma step_effects_harmless s e :
  existsb isSaveAs (snd (step s e)) = false
  /\ existsb (isAlert noImageMessage) (snd (step s e)) = false.
Proof.
  destruct e as [file| | | | |i|t v]; simpl; try done.
  - destruct (isSome (videoFile s) && negb (isExtracting s)); [|done].
    unfold extractFrames.
    destruct (negb (videoRef s) || negb (canvasRef s)); [done|].
    by destruct (negb (context2d s)).
  - by destruct (isSome (videoFile s) && isExtracting s).
  - destruct (isSome (videoFile s) && negb _) eqn:Hg; [|done]. simpl.
    apply andb_true_iff in Hg as [_ Hg]. apply negb_true_iff in Hg.
    destruct (downloadAllImages_cases s) as [[Hf H] | [(Hf & _ & H) | [Hf H]]].
    + by rewrite Hf in Hg.
    + rewrite H. simpl.
      rewrite countMessage_not_noImage, linkClicks_no_SaveAs.
      by rewrite linkClicks_no_Alert.
    + rewrite H. simpl.
      rewrite countMessage_not_noImage, linkClicks_no_SaveAs.
      by rewrite linkClicks_no_Alert.
  - by destruct (isSome (videoFile s)).
  - by destruct (existsb _ (frames s)).
  - by destruct (timers s !! t).
Qed.

(** X7: no sequence of events on the page, from any state, ever saves an
    archive: no control calls [downloadSelectedImages], so the zip export
    cannot be reached by a user. *)
Theorem page_never_saves_an_archive (s : State) (es : list Event) :
  existsb isSaveAs (runEffects s es) = false.
Proof.
  revert s. induction es as [|e es IH]; intros s; simpl; [done|].
  rewrite existsb_app, IH.
  by rewrite (proj1 (step_effects_harmless s e)).
Qed.

(** X8: [downloadAllImages] answers with the notice that no image is
    available exactly when the store is empty; and since the download
    button is disabled for an empty store, no sequence of events on the
    page ever shows that notice. *)
Theorem no_image_notice_only_for_empty_store (s : State) (es : list Event) :
  (downloadAllImages s = [Alert noImageMessage] <-> frames s = [])
  /\ existsb (isAlert noImageMessage) (runEffects s es) = false.
Proof.
  split.
  - destruct (downloadAllImages_cases s) as [[Hf H] | [(Hf & _ & H) | [Hf H]]].
    + by split.
    + split; [|done]. rewrite H. intros [= Hm Hl].
      destruct (frames s); [done | discriminate].
    + split.
      * rewrite H. intros [= Hm Hl].
        destruct (List.filter selected (frames s)); [done | discriminate].
      * intros Hnil. by rewrite Hnil in Hf.
  - revert s. induction es as [|e es IH]; intros s; simpl; [done|].
    rewrite existsb_app, IH.
    by rewrite (proj2 (step_effects_harmless s e)).
Qed.

(** X9: with a non-empty store, individual download announces the
    number of files and then clicks one link per exported frame, in
    store order, with the frame's data URL as target and its file name
    as download name: the selected frames if any frame is selected, and
    every frame otherwise. *)
Theorem individual_download_follows_selection (s : State) :
  frames s <> [] ->
  (List.filter selected (frames s) <> [] ->
   downloadAllImages s
   = Alert (countMessage (length (List.filter selected (frames s))))
     :: linkClicks (List.filter selected (frames s)))
  /\ (List.filter selected (frames s) = [] ->
      downloadAllImages s
      = Alert (countMessage (length (frames s))) :: linkClicks (frames s))
  /\ step s ClickDownload
     = (s, if isSome (videoFile s) then downloadAllImages s else []).
Proof.
  intros Hne.
  destruct (downloadAllImages_cases s) as [[Hf H] | [(Hf & Hsel & H) | [Hf H]]].
  - done.
  - split; [by rewrite Hsel|]. split; [done|].
    simpl. destruct (isSome (videoFile s)); [|done].
    by destruct (frames s).
  - split; [done|]. split; [done|].
    simpl. destruct (isSome (videoFile s)); [|done].
    by destruct (frames s).
Qed.

Lemma individual_download_follows_selection_witness :
  frames oneSelectedState <> []
  /\ List.filter selected (frames oneSelectedState) <> []
  /\ downloadAllImages oneSelectedState
     = [Alert (countMessage 1);
        LinkClick "data:image/png;base64,AAAA" "frame_0_OD.png"].
Proof.
  assert (frames oneSelectedState <> []) as Hne by (vm_compute; discriminate).
  assert (List.filter selected (frames oneSelectedState) <> []) as Hsel
    by (vm_compute; discriminate).
  split; [exact Hne|]. split; [exact Hsel|].
  rewrite (proj1 (individual_download_follows_selection oneSelectedState Hne) Hsel).
  reflexivity.
Defined.

(** ** The stored frames *)

Lemma sorted_bounded_length (l : list nat) (a g : nat) :
  StronglySorted lt l -> Forall (fun y => a <= y /\ y < g) l ->
  length l <= g - a.
Proof.
  intros Hs. revert a. induction Hs as [|x l _ IH Hx]; intros a Hb; simpl.
  - lia.
  - apply Forall_cons in Hb as [[Ha Hg] Hb].
    assert (length l <= g - S x); [|lia].
    apply IH. rewrite Forall_forall in *. intros y Hy.
    specialize (Hx y Hy). specialize (Hb y Hy). lia.
Qed.

(** X10: in every reachable state the ids of the stored frames increase
    strictly along the store and lie below the id counter, so no two
    stored frames share an id and the store never holds more frames than
    were captured; every stored frame is named [frame_<id>_<eyeSide>.png]
    after its own id and tag, so no two stored frames share a file name
    either. *)
Theorem stored_frames_are_distinct (s : State) :
  reachable s ->
  StronglySorted lt (List.map id (frames s))
  /\ List.NoDup (List.map id (frames s))
  /\ List.NoDup (List.map fileName (frames s))
  /\ Forall (fun f => id f < globalFrameId s
                      /\ fileName f = frameFileName (id f) (eyeSide f))
       (frames s)
  /\ length (frames s) <= globalFrameId s.
Proof.
  intros (Hwf & Hsort & Hlt)%reachable_framesInv.
  assert (List.NoDup (List.map id (frames s))) as Hnd
    by (by apply StronglySorted_lt_NoDup).
  split; [exact Hsort|]. split; [exact Hnd|]. split; [|split].
  - apply (NoDup_map_inj_on id); [|exact Hnd].
    intros f g Hf Hg Heq. rewrite Forall_forall in Hwf.
    rewrite (Hwf f), (Hwf g) in Heq by (by apply list_elem_of_In).
    by apply frameFileName_inj in Heq as [? _].
  - rewrite Forall_forall in *. intros f Hf. split; [by apply Hlt|by apply Hwf].
  - rewrite <- (length_map id).
    pose proof (sorted_bounded_length (List.map id (frames s)) 0
                  (globalFrameId s) Hsort) as H.
    rewrite Nat.sub_0_r in H. apply H.
    apply Forall_forall. intros y (f & -> & Hf)%list_elem_of_fmap.
    rewrite Forall_forall in Hlt. specialize (Hlt f Hf). lia.
Qed.

Lemma stored_frames_are_distinct_witness :
  reachable bothSidesState
  /\ List.NoDup (List.map fileName (frames bothSidesState))
  /\ length (frames bothSidesState) <= globalFrameId bothSidesState.
Proof.
  split; [exact reachable_bothSidesState|].
  pose proof (stored_frames_are_distinct bothSidesState reachable_bothSidesState)
    as (_ & _ & H1 & _ & H2).
  split; [exact H1 | exact H2].
Defined.

Lemma toggleFrame_self f : toggleFrame (id f) f = flipSelected f.
Proof. unfold toggleFrame. by rewrite Nat.eqb_refl. Qed.

(** X11: in a reachable state, a click on the thumbnail of a stored
    frame inverts the selection mark of that frame and of no other: the
    store keeps its length and order and every other frame is returned
    as it was, so the number of selected frames changes by exactly one;
    the id counter and the intervals are not affected. *)
Theorem thumbnail_click_flips_one_frame (s : State) (f : Frame) :
  reachable s ->
  In f (frames s) ->
  let s' := fst (step s (ClickFrame (id f))) in
  (exists l1 l2,
     frames s = l1 ++ f :: l2 /\ frames s' = l1 ++ flipSelected f :: l2)
  /\ length (List.filter selected (frames s'))
     = (if selected f
        then length (List.filter selected (frames s)) - 1
        else length (List.filter selected (frames s)) + 1)
  /\ globalFrameId s' = globalFrameId s
  /\ timers s' = timers s.
Proof.
  intros Hr Hin s'.
  assert (existsb (fun frame => Nat.eqb (id frame) (id f)) (frames s) = true)
    as Hgate.
  { apply existsb_exists. exists f. split; [exact Hin|apply Nat.eqb_refl]. }
  assert (s' = toggleFrameSelection (id f) s) as Hs'.
  { unfold s'. simpl. by rewrite Hgate. }
  destruct (reachable_framesInv s Hr) as (_ & Hsort & _).
  apply StronglySorted_lt_NoDup in Hsort.
  destruct (in_split f (frames s) Hin) as (l1 & l2 & Hsplit).
  rewrite Hsplit, List.map_app in Hsort. simpl in Hsort.
  apply List.NoDup_remove_2 in Hsort.
  assert (Forall (fun g => id g <> id f) l1) as H1.
  { apply Forall_forall. intros g Hg%list_elem_of_In Heq. apply Hsort.
    apply in_or_app. left. rewrite <- Heq. by apply in_map. }
  assert (Forall (fun g => id g <> id f) l2) as H2.
  { apply Forall_forall. intros g Hg%list_elem_of_In Heq. apply Hsort.
    apply in_or_app. right. rewrite <- Heq. by apply in_map. }
  assert (frames s' = l1 ++ flipSelected f :: l2) as Hframes.
  { rewrite Hs'. simpl. rewrite Hsplit, List.map_app. simpl.
    by rewrite toggleFrame_self, !map_toggleFrame_absent. }
  split; [by exists l1, l2|]. split; [|by rewrite Hs'].
  rewrite Hframes, Hsplit, !List.filter_app, !length_app. simpl.
  destruct (selected f); simpl; lia.
Qed.

Lemma thumbnail_click_flips_one_frame_witness :
  reachable twoFramesState
  /\ In (capturedFrame 1 OD sample1) (frames twoFramesState)
  /\ length (List.filter selected
               (frames (fst (step twoFramesState (ClickFrame 1))))) = 1.
Proof.
  assert (reachable twoFramesState) as Hr
    by (apply reachable_run; exists [Upload (Some demoFile); ClickStart];
        reflexivity).
  assert (In (capturedFrame 1 OD sample1) (frames twoFramesState)) as Hin
    by (vm_compute; right; left; reflexivity).
  split; [exact Hr|]. split; [exact Hin|].
  pose proof (proj1 (proj2
    (thumbnail_click_flips_one_frame twoFramesState _ Hr Hin))) as H.
  vm_compute in H. vm_compute. exact H.
Defined.

(** X12: a tick that captures a frame leaves the selection as it was:
    the new frame is unselected, so the selected frames are the same
    before and after; hence, once something is selected, frames captured
    later do not change what either export mode delivers. *)
Theorem capture_keeps_selection (s : State) (t : nat) (eye : EyeSide)
    (v : VideoSample) :
  timers s !! t = Some eye ->
  playing v = true ->
  let s' := fst (step s (Tick t v)) in
  List.filter selected (frames s') = List.filter selected (frames s)
  /\ downloadSelectedImages s' = downloadSelectedImages s
  /\ (List.filter selected (frames s) <> [] ->
      downloadAllImages s' = downloadAllImages s).
Proof.
  intros Ht Hv s'.
  destruct (step_tick_playing s t eye v Ht Hv) as (Hf & _). fold s' in Hf.
  assert (List.filter selected (frames s') = List.filter selected (frames s))
    as Hsel.
  { rewrite Hf, List.filter_app. simpl. apply app_nil_r. }
  split; [exact Hsel|]. split.
  - unfold downloadSelectedImages. by rewrite Hsel.
  - intros Hne. unfold downloadAllImages. rewrite Hsel.
    destruct (List.filter selected (frames s)); [done|]. reflexivity.
Qed.

Lemma capture_keeps_selection_witness :
  timers oneSelectedState !! 1 = Some OD
  /\ playing sample2 = true
  /\ List.filter selected (frames oneSelectedState) <> []
  /\ downloadAllImages (fst (step oneSelectedState (Tick 1 sample2)))
     = downloadAllImages oneSelectedState.
Proof.
  assert (List.filter selected (frames oneSelectedState) <> []) as Hne
    by (vm_compute; discriminate).
  split; [reflexivity|]. split; [reflexivity|]. split; [exact Hne|].
  exact (proj2 (proj2
    (capture_keeps_selection oneSelectedState 1 OD sample2 eq_refl eq_refl))
    Hne).
Defined.

(** ** The stop and eye-side buttons *)

(** X13: in every reachable state, after a click on stop no interval is
    active, the ref is empty and [isExtracting] is false, while the
    store, the id counter and the eye-side hook are as before and
    nothing is asked of the browser. *)
Theorem stop_click_cancels_everything (s : State) :
  reachable s ->
  let s' := fst (step s ClickStop) in
  timers s' = ∅
  /\ frameIntervalRef s' = None
  /\ isExtracting s' = false
  /\ frames s' = frames s
  /\ globalFrameId s' = globalFrameId s
  /\ eyeSideHook s' = eyeSideHook s
  /\ snd (step s ClickStop) = [].
Proof.
  intros Hr s'. pose proof (reachable_timerInv s Hr) as Hinv.
  destruct (reachable_pageInv s Hr) as (_ & _ & _ & _ & Hrun).
  destruct (isExtracting s) eqn:Hx.
  - destruct (Hrun (or_introl eq_refl)) as [Hf _].
    assert (step s ClickStop = (stopExtracting s, [])) as Hstep.
    { simpl. rewrite Hx. by destruct (videoFile s). }
    unfold s'. rewrite Hstep. simpl.
    destruct (stopExtracting_stops s Hinv) as (H1 & H2 & H3).
    destruct (stopExtracting_keeps s) as (H4 & H5 & H6).
    done.
  - assert (step s ClickStop = (s, [])) as Hstep.
    { simpl. rewrite Hx. by rewrite andb_false_r. }
    unfold s'. rewrite Hstep. simpl.
    destruct Hinv as [_ Hinv].
    destruct (frameIntervalRef s); [|by destruct Hinv].
    destruct Hinv as (_ & _ & ?). congruence.
Qed.

Lemma stop_click_cancels_everything_witness :
  reachable twoFramesState
  /\ timers (fst (step twoFramesState ClickStop)) = ∅
  /\ length (frames (fst (step twoFramesState ClickStop))) = 2.
Proof.
  assert (reachable twoFramesState) as Hr
    by (apply reachable_run; exists [Upload (Some demoFile); ClickStart];
        reflexivity).
  split; [exact Hr|].
  pose proof (stop_click_cancels_everything twoFramesState Hr)
    as (H1 & _ & _ & H4 & _).
  split; [exact H1|]. rewrite H4. reflexivity.
Defined.

(** X14: two clicks on the eye-side button bring the component back to
    exactly the state it was in, in every state; one click changes the
    hook to the other eye side when a video is chosen and changes no
    stored frame and no interval. *)
Theorem eye_side_click_twice (s : State) :
  fst (step (fst (step s ClickEyeSide)) ClickEyeSide) = s
  /\ eyeSideHook (fst (step s ClickEyeSide))
     = (if isSome (videoFile s) then toggleEyeSide (eyeSideHook s)
        else eyeSideHook s)
  /\ frames (fst (step s ClickEyeSide)) = frames s
  /\ timers (fst (step s ClickEyeSide)) = timers s.
Proof.
  destruct s as [? ? ? ? ? ? ? file eye ? ? ? ? ?].
  destruct file, eye; repeat split; reflexivity.
Qed.

(** X15: in every reachable state, each active interval is the one whose
    handle [frameIntervalRef] holds, and [isExtracting] is true while it
    is active: no interval is ever left running behind the component's
    back, and a tick of any other handle changes nothing. *)
Theorem no_interval_is_leaked (s : State) (t : nat) (v : VideoSample) :
  reachable s ->
  (forall eye, timers s !! t = Some eye ->
     frameIntervalRef s = Some t /\ isExtracting s = true)
  /\ (frameIntervalRef s <> Some t -> step s (Tick t v) = (s, [])).
Proof.
  intros [_ Hinv]%reachable_timerInv.
  assert (forall eye, timers s !! t = Some eye ->
            frameIntervalRef s = Some t /\ isExtracting s = true) as H.
  { intros eye Hlook. destruct (frameIntervalRef s) as [t'|].
    - destruct Hinv as (_ & [eye' Hm] & Hx). rewrite Hm in Hlook.
      apply lookup_singleton_Some in Hlook as [-> _]. done.
    - destruct Hinv as [Hm _]. by rewrite Hm, lookup_empty in Hlook. }
  split; [exact H|]. intros Hne. simpl.
  destruct (timers s !! t) as [eye|] eqn:Hlook; [|done].
  by destruct (H eye eq_refl) as [? _].
Qed.

Lemma no_interval_is_leaked_witness :
  reachable restartedState
  /\ frameIntervalRef restartedState <> Some 1
  /\ step restartedState (Tick 1 sample2) = (restartedState, []).
Proof.
  assert (reachable restartedState) as Hr.
  { unfold restartedState. apply reachable_run, reachable_run.
    exists [Upload (Some demoFile); ClickStart]. reflexivity. }
  assert (frameIntervalRef restartedState <> Some 1) as Hne
    by (vm_compute; discriminate).
  split; [exact Hr|]. split; [exact Hne|].
  exact (proj2 (no_interval_is_leaked restartedState 1 sample2 Hr) Hne).
Defined.

(** ** Loading a video while capture runs *)

(** X16: [handleVideoUpload] does not stop a running capture.  In a
    reachable state where capture runs, choosing another file empties
    the store and points the video element at the new file, but the
    interval stays active and [isExtracting] stays true, so the start
    button stays disabled; the next tick on a playing video puts a frame
    into the fresh store, tagged with the eye side the interval was
    started with. *)
Theorem upload_does_not_stop_capture (s : State) (file : File) (t : nat)
    (eye : EyeSide) (v : VideoSample) :
  reachable s ->
  timers s !! t = Some eye ->
  playing v = true ->
  let s' := fst (step s (Upload (Some file))) in
  frames s' = []
  /\ videoFile s' = Some file
  /\ videoSrc s' = Some file
  /\ isExtracting s' = true
  /\ timers s' = timers s
  /\ frameIntervalRef s' = frameIntervalRef s
  /\ eyeSideHook s' = eyeSideHook s
  /\ step s' ClickStart = (s', [])
  /\ frames (fst (step s' (Tick t v)))
     = [capturedFrame (globalFrameId s) eye v].
Proof.
  intros Hr Ht Hv s'.
  destruct (reachable_pageInv s Hr) as (Hvr & _).
  assert (isExtracting s = true) as Hx.
  { destruct (reachable_timerInv s Hr) as [_ Hinv].
    destruct (frameIntervalRef s).
    - by destruct Hinv as (_ & _ & ?).
    - destruct Hinv as [Hm _]. by rewrite Hm, lookup_empty in Ht. }
  assert (s' = set_videoSrc (Some file)
                 (setFrames (fun _ => []) (setVideoFile (Some file) s)))
    as Hs'.
  { unfold s'. simpl. by rewrite Hvr. }
  assert (timers s' !! t = Some eye) as Ht' by (by rewrite Hs').
  destruct (step_tick_playing s' t eye v Ht' Hv) as (Hf & _).
  rewrite Hf. rewrite Hs'. simpl. rewrite Hx. by repeat split.
Qed.

Lemma upload_does_not_stop_capture_witness :
  reachable twoFramesState
  /\ timers twoFramesState !! 1 = Some OD
  /\ playing sample2 = true
  /\ frames (fst (step (fst (step twoFramesState
                              (Upload (Some (mkFile "second.mp4")))))
                    (Tick 1 sample2)))
     = [capturedFrame 2 OD sample2].
Proof.
  assert (reachable twoFramesState) as Hr
    by (apply reachable_run; exists [Upload (Some demoFile); ClickStart];
        reflexivity).
  split; [exact Hr|]. split; [reflexivity|]. split; [reflexivity|].
  exact (proj2 (proj2 (proj2 (proj2 (proj2 (proj2 (proj2 (proj2
    (upload_does_not_stop_capture twoFramesState (mkFile "second.mp4") 1 OD
       sample2 Hr eq_refl eq_refl))))))))).
Defined.

(** ** The size of the archive *)

Section fold_insert_size.
Context {A V : Type} (key : A -> string) (val : A -> V).

Lemma size_fold_insert (l : list A) (z : gmap string V) :
  List.NoDup (List.map key l) ->
  Forall (fun x => z !! key x = None) l ->
  size (fold_left (fun (m : gmap string V) (x : A) => <[key x := val x]> m) l z)
  = size z + length l.
Proof.
  revert z. induction l as [|x l IH]; intros z Hnd Hz; simpl; [lia|].
  apply List.NoDup_cons_iff in Hnd as [Hx Hnd].
  apply Forall_cons in Hz as [Hzx Hz].
  rewrite IH; [|exact Hnd|].
  - rewrite map_size_insert_None by exact Hzx. lia.
  - rewrite Forall_forall in *. intros y Hy.
    rewrite lookup_insert_ne; [by apply Hz|].
    intros Heq. apply Hx. rewrite Heq. by apply in_map, list_elem_of_In.
Qed.

End fold_insert_size.

(** X17: in every reachable state, a saved archive has exactly one entry
    per exported frame besides the two folders and the manifest: no
    frame of the export is lost or written over another one. *)
Theorem archive_has_one_entry_per_frame (s : State)
    (zip : gmap string ZipObject) (name : string) :
  reachable s ->
  In (SaveAs zip name) (downloadSelectedImages s) ->
  size zip = length (List.filter selected (frames s)) + 3.
Proof.
  intros Hr (_ & _ & ->)%downloadSelectedImages_SaveAs.
  destruct (reachable_zipPath_NoDup s Hr) as [Hwf Hnd].
  set (sel := List.filter selected (frames s)) in *.
  set (base := <["OE/" := ZDir]> (<["OD/" := ZDir]> (∅ : gmap string ZipObject))).
  assert (size base = 2) as Hbase.
  { unfold base. rewrite map_size_insert_None.
    - by rewrite map_size_insert_None, map_size_empty by apply lookup_empty.
    - rewrite lookup_insert_ne by done. apply lookup_empty. }
  assert (Forall (fun f => base !! zipPath f = None) sel) as Hfresh.
  { eapply Forall_impl; [exact Hwf|]. intros f [H1 H2]%zipPath_not_folder.
    unfold base. rewrite !lookup_insert_ne by done. apply lookup_empty. }
  rewrite map_size_insert_None.
  - rewrite (size_fold_insert zipPath zipEntry sel base Hnd Hfresh), Hbase. lia.
  - rewrite lookup_fold_insert_other.
    + unfold base. rewrite !lookup_insert_ne by done. apply lookup_empty.
    + apply Forall_forall. intros f _. apply zipPath_not_manifest.
Qed.

Lemma archive_has_one_entry_per_frame_witness :
  reachable bothSidesState
  /\ exists zip,
       In (SaveAs zip "frames_selecionados.zip")
         (downloadSelectedImages bothSidesState)
       /\ size zip = 5.
Proof.
  assert (List.filter selected (frames bothSidesState) <> []) as Hne
    by (vm_compute; discriminate).
  pose proof (downloadSelectedImages_archive bothSidesState Hne) as Heq.
  split; [exact reachable_bothSidesState|].
  eexists. split; [rewrite Heq; left; reflexivity|].
  rewrite (archive_has_one_entry_per_frame bothSidesState _ _
             reachable_bothSidesState
             ltac:(rewrite Heq; left; reflexivity)).
  reflexivity.
Defined.

(** ** Ids over a whole session *)

(** X18: ids are never reused within a session, whatever happens between
    two captures (stops, restarts, uploads that empty the store): the
    frame a capturing tick appends gets the number of frames captured
    before it as its id, so a frame captured later always has a larger
    id than one captured earlier, even if the earlier one is no longer
    stored. *)
Theorem ids_never_reused (es1 : list Event) (t1 : nat) (v1 : VideoSample)
    (es2 : list Event) (t2 : nat) (v2 : VideoSample) :
  let s1 := run mounted es1 in
  let s2 := run (fst (step s1 (Tick t1 v1))) es2 in
  captures s1 (Tick t1 v1) = true ->
  captures s2 (Tick t2 v2) = true ->
  exists f1 f2,
    frames (fst (step s1 (Tick t1 v1))) = frames s1 ++ [f1]
    /\ frames (fst (step s2 (Tick t2 v2))) = frames s2 ++ [f2]
    /\ id f1 = captureCount mounted es1
    /\ id f1 < id f2.
Proof.
  intros s1 s2 Hc1 Hc2.
  destruct (step_captures s1 _ Hc1) as (? & ? & eye1 & [= <- <-] & Ht1 & Hv1).
  destruct (step_captures s2 _ Hc2) as (? & ? & eye2 & [= <- <-] & Ht2 & Hv2).
  destruct (step_tick_playing s1 t1 eye1 v1 Ht1 Hv1) as (Hf1 & Hg1 & _).
  destruct (step_tick_playing s2 t2 eye2 v2 Ht2 Hv2) as (Hf2 & _).
  exists (capturedFrame (globalFrameId s1) eye1 v1),
         (capturedFrame (globalFrameId s2) eye2 v2).
  split; [exact Hf1|]. split; [exact Hf2|]. simpl. split.
  - unfold s1. by rewrite globalFrameId_run.
  - unfold s2. rewrite globalFrameId_run, Hg1. lia.
Qed.

Lemma ids_never_reused_witness :
  captures (run mounted [Upload (Some demoFile); ClickStart]) (Tick 1 sample0)
  = true
  /\ captures
       (run (fst (step (run mounted [Upload (Some demoFile); ClickStart])
                    (Tick 1 sample0)))
          [Upload (Some (mkFile "second.mp4"))])
       (Tick 1 sample1) = true
  /\ exists f1 f2,
       frames (fst (step
                 (run (fst (step (run mounted [Upload (Some demoFile); ClickStart])
                              (Tick 1 sample0)))
                    [Upload (Some (mkFile "second.mp4"))])
                 (Tick 1 sample1))) = [] ++ [f2]
       /\ id f1 = 0 /\ id f1 < id f2.
Proof.
  split; [reflexivity|]. split; [reflexivity|].
  destruct (ids_never_reused [Upload (Some demoFile); ClickStart] 1 sample0
              [Upload (Some (mkFile "second.mp4"))] 1 sample1
              eq_refl eq_refl) as (f1 & f2 & _ & H2 & H3 & H4).
  exists f1, f2. split; [exact H2|]. split; [exact H3 | exact H4].
Defined.
